(** * update-imported-docs: a shallow embedding of the doc-import script

    The script [update-imported-docs.py] clones the configured repositories,
    runs their generator command, copies the selected files under the web
    root and rewrites the markdown links of the copied pages.  This file
    embeds the script function by function: Python's [str] methods, the
    [posixpath] helpers, the fragment of [re] the three patterns of the
    script use (with the backtracking order of CPython's engine), the two
    link rewriters, [process_file] and [main] over an explicit model of the
    operating system, and proves the properties of the specification. *)

From Stdlib Require Import String Ascii List Bool Arith Lia ZArith.
Import ListNotations.

(** ** Strings

    A Python [str] is a sequence of characters; literals are written
    [(lit "...")]. *)

Definition str := list ascii.

Definition lit (s : string) : str := list_ascii_of_string s.

Definition nl : ascii := "010"%char.

Definition slash : ascii := "/"%char.

Module Py.

(** [s.startswith(p)] *)
Fixpoint startswith (s p : str) {struct p} : bool :=
  match p, s with
  | [], _ => true
  | _ :: _, [] => false
  | x :: p', c :: s' => Ascii.eqb c x && startswith s' p'
  end.

(** [s.endswith(p)] *)
Definition endswith (s p : str) : bool := startswith (rev s) (rev p).

Definition str_eqb (a b : str) : bool :=
  (length a =? length b) && startswith a b.

(** [sep.join(parts)] *)
Fixpoint join (sep : str) (parts : list str) : str :=
  match parts with
  | [] => []
  | [p] => p
  | p :: rest => p ++ sep ++ join sep rest
  end.

(** [s.split(sep)] for a non-empty [sep]: the occurrences of [sep] are taken
    from left to right without overlap.  [skip] counts the characters of an
    occurrence still to pass over, [cur] holds the current piece reversed. *)
Fixpoint split_from (sep s : str) (skip : nat) (cur : str) : list str :=
  match s with
  | [] => [rev cur]
  | c :: t =>
      match skip with
      | S n => split_from sep t n cur
      | O =>
          if startswith s sep
          then rev cur :: split_from sep t (length sep - 1) []
          else split_from sep t 0 (c :: cur)
      end
  end.

Definition split (s sep : str) : list str := split_from sep s 0 [].

(** [x in l] for a list of strings *)
Definition contains (l : list str) (x : str) : bool := existsb (str_eqb x) l.

End Py.

(** ** posixpath *)

Module PosixPath.

Definition is_slash (c : ascii) : bool := Ascii.eqb c slash.

Fixpoint take_while (p : ascii -> bool) (l : str) : str :=
  match l with
  | c :: t => if p c then c :: take_while p t else []
  | [] => []
  end.

Fixpoint drop_while (p : ascii -> bool) (l : str) : str :=
  match l with
  | c :: t => if p c then drop_while p t else l
  | [] => []
  end.

(** One step of the loop of [posixpath.join]. *)
Definition join2 (path b : str) : str :=
  if Py.startswith b [slash] then b
  else if match path with [] => true | _ => Py.endswith path [slash] end
       then path ++ b
       else path ++ slash :: b.

(** [os.path.join(a, *p)] *)
Definition join (a : str) (p : list str) : str := fold_left join2 p a.

(** [os.path.basename(p)]: what follows the last slash. *)
Definition basename (p : str) : str :=
  rev (take_while (fun c => negb (is_slash c)) (rev p)).

(** [os.path.dirname(p)]: what precedes the last slash, with the trailing
    slashes removed unless it consists of slashes only. *)
Definition dirname (p : str) : str :=
  let head := rev (drop_while (fun c => negb (is_slash c)) (rev p)) in
  if forallb is_slash head then head
  else rev (drop_while is_slash (rev head)).

End PosixPath.

(** ** The fragment of [re] used by the script

    Patterns are built from literal characters, [.], greedy and lazy stars
    of one character class, sequencing, the optional group [(...)?], capture
    groups and the anchors [^] and [$] (no flag is ever passed, so [.] does
    not match a newline, [^] matches at the start of the string only and
    [$] at the end or before a final newline).  The matcher is the
    backtracking matcher of CPython in continuation-passing style: the
    first success in the engine's order of attempts is the result. *)

Module Re.

Inductive atom : Type :=
| Lit (c : ascii)
| Dot.

Inductive regex : Type :=
| Eps
| Atom (a : atom)
| Star (a : atom)
| StarLazy (a : atom)
| Seq (r1 r2 : regex)
| Opt (r : regex)
| Group (name : string) (r : regex)
| Bol
| Eol.

Definition atom_ok (a : atom) (c : ascii) : bool :=
  match a with
  | Lit x => Ascii.eqb x c
  | Dot => negb (Ascii.eqb c nl)
  end.

(** The groups captured so far, the latest binding first. *)
Definition caps := list (string * str).

(** A continuation receives the rest of the input, the position reached and
    the captures, and answers with the end of the overall match. *)
Definition cont := str -> nat -> caps -> option (nat * caps).

Fixpoint star_greedy (a : atom) (l : str) (pos : nat) (cs : caps) (k : cont)
  : option (nat * caps) :=
  match l with
  | c :: t =>
      if atom_ok a c then
        match star_greedy a t (S pos) cs k with
        | Some r => Some r
        | None => k l pos cs
        end
      else k l pos cs
  | [] => k l pos cs
  end.

Fixpoint star_lazy (a : atom) (l : str) (pos : nat) (cs : caps) (k : cont)
  : option (nat * caps) :=
  match k l pos cs with
  | Some r => Some r
  | None =>
      match l with
      | c :: t => if atom_ok a c then star_lazy a t (S pos) cs k else None
      | [] => None
      end
  end.

Fixpoint run (r : regex) (l : str) (pos : nat) (cs : caps) (k : cont)
  : option (nat * caps) :=
  match r with
  | Eps => k l pos cs
  | Atom a =>
      match l with
      | c :: t => if atom_ok a c then k t (S pos) cs else None
      | [] => None
      end
  | Star a => star_greedy a l pos cs k
  | StarLazy a => star_lazy a l pos cs k
  | Seq r1 r2 => run r1 l pos cs (fun l' pos' cs' => run r2 l' pos' cs' k)
  | Opt r1 =>
      match run r1 l pos cs k with
      | Some x => Some x
      | None => k l pos cs
      end
  | Group name r1 =>
      run r1 l pos cs
        (fun l' pos' cs' => k l' pos' ((name, firstn (pos' - pos) l) :: cs'))
  | Bol => if pos =? 0 then k l pos cs else None
  | Eol =>
      match l with
      | [] => k l pos cs
      | [c] => if Ascii.eqb c nl then k l pos cs else None
      | _ => None
      end
  end.

(** One attempt at position [pos], where [l] is the input from [pos] on;
    the answer is the length of the match and its groups.  With
    [must_advance] an empty match is refused (the engine's flag after an
    empty match of [re.sub]). *)
Definition try_match (r : regex) (l : str) (pos : nat) (must_advance : bool)
  : option (nat * caps) :=
  run r l pos []
    (fun _ pos' cs' =>
       if must_advance && (pos' =? pos) then None
       else Some (pos' - pos, cs')).

(** What the script reads of a match object: the matched text and the
    groups. *)
Record match_obj : Type := MatchObj {
  m_text : str;
  m_groups : caps
}.

Definition mk_match (l : str) (res : nat * caps) : match_obj :=
  MatchObj (firstn (fst res) l) (snd res).

Fixpoint lookup (name : string) (cs : caps) : option str :=
  match cs with
  | [] => None
  | (n, v) :: rest => if String.eqb n name then Some v else lookup name rest
  end.

(** [m.group(name)]; a group that took no part in the match reads as the
    empty string here (in the link patterns both groups always take part). *)
Definition group (m : match_obj) (name : string) : str :=
  match lookup name (m_groups m) with
  | Some v => v
  | None => []
  end.

(** [pattern.search(string)]: the first position with a match. *)
Fixpoint search_from (r : regex) (l : str) (pos : nat) : option match_obj :=
  match try_match r l pos false with
  | Some res => Some (mk_match l res)
  | None =>
      match l with
      | [] => None
      | _ :: t => search_from r t (S pos)
      end
  end.

Definition search (r : regex) (s : str) : option match_obj := search_from r s 0.

(** The pieces [re.sub] cuts a string into: the characters outside every
    match and the successive matches. *)
Inductive piece : Type :=
| Ch (c : ascii)
| Mt (m : match_obj).

(** The scan of [re.sub]: the leftmost match from the current position is
    taken, the scan resumes at its end ([skip] counts the characters of the
    match still to pass over), and after an empty match the next attempt at
    the same position counts only if it advances. *)
Fixpoint scan (r : regex) (l : str) (pos : nat) (skip : nat) : list piece :=
  let next_char :=
    match l with
    | c :: t => Ch c :: scan r t (S pos) 0
    | [] => []
    end in
  let after n :=
    match l with
    | _ :: t => scan r t (S pos) n
    | [] => []
    end in
  match skip with
  | S n => after n
  | O =>
      match try_match r l pos false with
      | None => next_char
      | Some res =>
          match fst res with
          | S n => Mt (mk_match l res) :: after n
          | O =>
              Mt (mk_match l res) ::
              match try_match r l pos true with
              | Some res2 =>
                  match fst res2 with
                  | S n => Mt (mk_match l res2) :: after n
                  | O => next_char
                  end
              | None => next_char
              end
          end
      end
  end.

(** The text [re.sub] builds from the pieces and the replacement of each
    match. *)
Definition render (repl : match_obj -> str) (ps : list piece) : str :=
  flat_map (fun p => match p with Ch c => [c] | Mt m => repl m end) ps.

(** [re.sub(pattern, repl, string)] with a function [repl]. *)
Definition sub (r : regex) (repl : match_obj -> str) (s : str) : str :=
  render repl (scan r s 0 0).

End Re.

(** ** Exceptions and the model of the operating system *)

Inductive exn : Type :=
| IndexError
| KeyError (key : str)
| CalledProcessError
| UnboundLocalError (name : str)
| SystemExit (code : Z).

Inductive result (A : Type) : Type :=
| Ok (a : A)
| Raise (e : exn).

Arguments Ok {A} a.
Arguments Raise {A} e.

Definition rbind {A B : Type} (c : result A) (f : A -> result B) : result B :=
  match c with
  | Ok a => f a
  | Raise e => Raise e
  end.

(** [re.sub] with a [repl] that may raise: the matches are handed to [repl]
    from left to right and the first exception leaves the call. *)
Fixpoint sub_pieces (repl : Re.match_obj -> result str) (ps : list Re.piece)
  : result str :=
  match ps with
  | [] => Ok []
  | Re.Ch c :: rest => rbind (sub_pieces repl rest) (fun out => Ok (c :: out))
  | Re.Mt m :: rest =>
      rbind (repl m) (fun x =>
      rbind (sub_pieces repl rest) (fun out => Ok (x ++ out)))
  end.

Definition re_sub_raising (r : Re.regex) (repl : Re.match_obj -> result str)
  (s : str) : result str :=
  sub_pieces repl (Re.scan r s 0 0).

(** What the script observes of and does to its surroundings. *)
Inductive event : Type :=
| Print (text : str)
| Chdir (dir : str)
| Shell (cmd : str)
| OpenW (path : str)
| WriteText (path : str) (content : str).

(** The configuration is modelled for YAML documents of the shape the
    script reads: a mapping with the key [repos], a list of mappings whose
    values are strings, and under [files] a list of mappings with the keys
    [src] and [dst].  Every key may be absent; a value of another type (an
    empty document, a scalar where a list is read) is outside the model. *)

(** One entry of [files]; a key that is absent from the mapping is [None]. *)
Record file_directive : Type := FileDirective {
  f_src : option str;
  f_dst : option str
}.

(** One entry of [repos]; a key that is absent from the YAML mapping is
    [None] ([gen-absolute-links] is only tested for presence). *)
Record repo : Type := Repo {
  r_name : option str;
  r_remote : option str;
  r_branch : option str;
  r_generate_command : option str;
  r_gen_absolute_links : bool;
  r_files : option (list file_directive)
}.

Record config : Type := Config {
  c_repos : option (list repo)
}.

(** The services of the interpreter, of the libraries and of the system the
    script calls, over a state [W] of the machine (file system, current
    directory, installed tools).  A call that raises answers with the text
    of the exception ([inl]); a shell command answers with its exit
    status.  Writing to the standard output and [os.chdir] are taken to
    succeed: the traces below are those of runs in which they do. *)
Class OS (W : Type) : Type := {
  which : str -> W -> bool;
  pip_freeze : W -> option str;
  parse_args : W -> option (str * str);
  script_abspath : W -> str;
  realpath : str -> W -> str;
  yaml_full_load : str -> W -> str + config;
  platform_system : W -> str;
  gettempdir : W -> str;
  mkdtemp : str -> W -> str + (str * W);
  chdir : str -> W -> W;
  subprocess_call : str -> W -> Z * W;
  glob : str -> W -> list str;
  isfile : str -> W -> bool;
  read_text : str -> W -> str + str;
  open_w : str -> W -> str + W;
  write_text : str -> str -> W -> str + W
}.

(** ** The link rewriters *)

(** [link_regex] of [process_links]: an opening bracket, the group [ankor]
    (a greedy star of [.]), a closing bracket and an opening parenthesis, the
    group [target] (a greedy star of [.]) and a closing parenthesis. *)
Definition link_regex : Re.regex :=
  Re.Seq (Re.Atom (Re.Lit "["))
  (Re.Seq (Re.Group "ankor" (Re.Star Re.Dot))
  (Re.Seq (Re.Atom (Re.Lit "]"))
  (Re.Seq (Re.Atom (Re.Lit "("))
  (Re.Seq (Re.Group "target" (Re.Star Re.Dot))
          (Re.Atom (Re.Lit ")")))))).

(** [h1_regex] of [process_links]: at the start of the string, optionally a
    hash sign, a space and a greedy star of [.], then a newline. *)
Definition h1_regex : Re.regex :=
  Re.Seq Re.Bol
  (Re.Seq (Re.Opt (Re.Group "1"
             (Re.Seq (Re.Atom (Re.Lit "#"))
             (Re.Seq (Re.Atom (Re.Lit " ")) (Re.Star Re.Dot)))))
          (Re.Atom (Re.Lit nl))).

(** [link_regex] of [process_kubectl_links]: as above, but the star of the
    group [target] is lazy. *)
Definition kubectl_link_regex : Re.regex :=
  Re.Seq (Re.Atom (Re.Lit "["))
  (Re.Seq (Re.Group "ankor" (Re.Star Re.Dot))
  (Re.Seq (Re.Atom (Re.Lit "]"))
  (Re.Seq (Re.Atom (Re.Lit "("))
  (Re.Seq (Re.Group "target" (Re.StarLazy Re.Dot))
          (Re.Atom (Re.Lit ")")))))).

(** The format  [%s](%s) % (ankor, target). *)
Definition format_link (ankor target : str) : str :=
  lit "[" ++ ankor ++ lit "](" ++ target ++ lit ")".

(** The inner function [analyze] of [process_links]. *)
Definition analyze (remote_prefix sub_path : str) (match_obj : Re.match_obj)
  : str :=
  let ankor := Re.group match_obj "ankor" in
  let target := Re.group match_obj "target" in
  let target :=
    if negb (Py.startswith target (lit "https://")
             || Py.startswith target (lit "mailto:")
             || Py.startswith target (lit "#"))
    then
      if Py.startswith target (lit "/")
      then Py.join (lit "/") [remote_prefix; skipn 1 target]
      else Py.join (lit "/") [remote_prefix; sub_path; target]
    else target in
  format_link ankor target.

Definition process_links (content remote_prefix sub_path : str) : str :=
  let content := Re.sub link_regex (analyze remote_prefix sub_path) content in
  let content := Re.sub h1_regex (fun _ => []) content in
  content.

Definition kubectl_commands : str :=
  lit "/docs/reference/generated/kubectl/kubectl-commands".

(** The inner function [analyze] of [process_kubectl_links];
    [ankor_list[1]] raises [IndexError] on a list of one element. *)
Definition kubectl_analyze (match_obj : Re.match_obj) : result str :=
  let ankor := Re.group match_obj "ankor" in
  let target := Re.group match_obj "target" in
  rbind
    (if Py.endswith target (lit ".md") && Py.startswith target (lit "kubectl")
     then
       let ankor_list := Py.split ankor (lit "kubectl ") in
       match nth_error ankor_list 1 with
       | Some sub_cmd => Ok (kubectl_commands ++ lit "#" ++ sub_cmd)
       | None => Raise IndexError
       end
     else Ok target)
    (fun target => Ok (format_link ankor target)).

Definition process_kubectl_links (content : str) : result str :=
  re_sub_raising kubectl_link_regex kubectl_analyze content.

(** [remote_regex] of [main]: at the start of the string the scheme
    https://, the group [prefix] (a greedy star of [.]), then .git at the
    end of the string. *)
Definition remote_regex : Re.regex :=
  Re.Seq Re.Bol
  (Re.Seq (Re.Atom (Re.Lit "h")) (Re.Seq (Re.Atom (Re.Lit "t"))
  (Re.Seq (Re.Atom (Re.Lit "t")) (Re.Seq (Re.Atom (Re.Lit "p"))
  (Re.Seq (Re.Atom (Re.Lit "s")) (Re.Seq (Re.Atom (Re.Lit ":"))
  (Re.Seq (Re.Atom (Re.Lit "/")) (Re.Seq (Re.Atom (Re.Lit "/"))
  (Re.Seq (Re.Group "prefix" (Re.Star Re.Dot))
  (Re.Seq (Re.Atom (Re.Lit ".")) (Re.Seq (Re.Atom (Re.Lit "g"))
  (Re.Seq (Re.Atom (Re.Lit "i")) (Re.Seq (Re.Atom (Re.Lit "t"))
          Re.Eol))))))))))))).


(** ** Statements with effects

    A computation runs on the state of the machine and the trace of what the
    script has done so far; it returns a value or raises. *)

Section Script.

Context {W : Type} {os : OS W}.

Definition state : Type := W * list event.

Definition M (A : Type) : Type := state -> result A * state.

Definition ret {A : Type} (a : A) : M A := fun st => (Ok a, st).

Definition raise {A : Type} (e : exn) : M A := fun st => (Raise e, st).

Definition bind {A B : Type} (c : M A) (f : A -> M B) : M B :=
  fun st =>
    match c st with
    | (Ok a, st') => f a st'
    | (Raise e, st') => (Raise e, st')
    end.

Definition emit (e : event) : M unit :=
  fun st => (Ok tt, (fst st, snd st ++ [e])).

Definition ask {A : Type} (f : W -> A) : M A :=
  fun st => (Ok (f (fst st)), st).

Definition set_world (w : W) : M unit :=
  fun st => (Ok tt, (w, snd st)).

Definition print (text : str) : M unit := emit (Print text).

Fixpoint for_each {A : Type} (l : list A) (body : A -> M unit) : M unit :=
  match l with
  | [] => ret tt
  | x :: rest => bind (body x) (fun _ => for_each rest body)
  end.

End Script.

Notation "x <- c ;; k" := (bind c (fun x => k))
  (at level 61, c at next level, right associativity).
Notation "c ;; k" := (bind c (fun _ => k))
  (at level 61, right associativity).

(** ** The script *)

Definition msg_pip : str :=
  lit "Install pip so you can install PyYAML. https://pip.pypa.io/en/stable/installing".

Definition msg_yaml : str :=
  lit "Please ensure the PyYAML package is installed; see https://pypi.org/project/PyYAML".

Definition msg_go : str :=
  lit "Go must be installed. See https://golang.org/doc/install".

Definition is_space (c : ascii) : bool :=
  existsb (Ascii.eqb c) [" "; "009"; "010"; "011"; "012"; "013"]%char.

(** [reqs.split()]: the maximal runs of characters that are not white space. *)
Fixpoint split_ws_from (s cur : str) : list str :=
  match s with
  | [] => match cur with [] => [] | _ => [rev cur] end
  | c :: t =>
      if is_space c
      then match cur with
           | [] => split_ws_from t []
           | _ => rev cur :: split_ws_from t []
           end
      else split_ws_from t (c :: cur)
  end.

Definition split_ws (s : str) : list str := split_ws_from s [].

(** The release string as [main] uses it after the test on its length. *)
Definition normalize_release (k8s_release : str) : str :=
  if length k8s_release =? 4 then k8s_release ++ lit ".0" else k8s_release.

(** The destination of one matched file in [process_file]. *)
Definition resolve_dst (dst_path src : str) : str :=
  let dst := dst_path in
  if Py.endswith dst_path (lit "/")
  then PosixPath.join dst [PosixPath.basename src]
  else dst.

(** The status the interpreter exits with on [sys.exit(main())]. *)
Definition exit_status (r : result (option Z)) : Z :=
  match r with
  | Ok None => 0
  | Ok (Some n) => n mod 256
  | Raise (SystemExit code) => code mod 256
  | Raise _ => 1
  end.

Section Program.

Context {W : Type} {os : OS W}.

Definition do_chdir (dir : str) : M unit :=
  fun st => (Ok tt, (chdir dir (fst st), snd st ++ [Chdir dir])).

Definition call (cmd : str) : M Z :=
  fun st =>
    let (res, w) := subprocess_call cmd (fst st) in
    (Ok res, (w, snd st ++ [Shell cmd])).

(** The statements of the module that run before [main]. *)
Definition preflight : M (list str) :=
  let error_msgs := [] in
  has_pip <- ask (which (lit "pip")) ;;
  has_pip3 <- ask (which (lit "pip3")) ;;
  let error_msgs :=
    if negb (has_pip || has_pip3) then error_msgs ++ [msg_pip]
    else error_msgs in
  out <- ask pip_freeze ;;
  match out with
  | None => raise CalledProcessError
  | Some reqs =>
      let installed_packages :=
        map (fun r => hd [] (Py.split r (lit "=="))) (split_ws reqs) in
      let error_msgs :=
        if negb (Py.contains installed_packages (lit "PyYAML"))
        then error_msgs ++ [msg_yaml]
        else error_msgs in
      has_go <- ask (which (lit "go")) ;;
      let error_msgs :=
        if negb has_go then error_msgs ++ [msg_go] else error_msgs in
      ret error_msgs
  end.

(** The body of the loop of [process_file] for one path of the glob. *)
Definition process_match (src dst_path repo_path : str)
  (gen_absolute_links : bool) : M unit :=
  is_file <- ask (isfile src) ;;
  if negb is_file
  then print (lit "[Error] skipping non-regular path " ++ src)
  else
    rd <- ask (read_text src) ;;
    match rd with
    | inl _ => print (lit "[Error] failed in reading source file: ")
    | inr content =>
        let dst := resolve_dst dst_path src in
        let failed (ex : str) : M unit :=
          print (lit "[Error] failed in writing target file " ++ dst
                 ++ lit ": " ++ ex) in
        print (lit "Writing doc: " ++ dst) ;;
        op <- ask (open_w dst) ;;
        match op with
        | inl ex => failed ex
        | inr w =>
            set_world w ;;
            emit (OpenW dst) ;;
            let content :=
              if gen_absolute_links
              then
                let src_dir := PosixPath.dirname src in
                let remote_prefix := repo_path ++ lit "/tree/master" in
                process_links content remote_prefix src_dir
              else content in
            let write (content : str) : M unit :=
              wr <- ask (write_text dst content) ;;
              match wr with
              | inl ex => failed ex
              | inr w' => set_world w' ;; emit (WriteText dst content)
              end in
            if Py.endswith dst (lit "kubectl.md")
            then
              print (lit "Processing kubectl links") ;;
              match process_kubectl_links content with
              | Ok content => write content
              | Raise _ => failed (lit "list index out of range")
              end
            else write content
        end
    end.

Definition process_file (src dst repo_path repo_dir root_dir : str)
  (gen_absolute_links : bool) : M unit :=
  let pattern := PosixPath.join repo_dir [repo_path; src] in
  let dst_path := PosixPath.join root_dir [dst] in
  srcs <- ask (glob pattern) ;;
  for_each srcs
    (fun src => process_match src dst_path repo_path gen_absolute_links).

(** The body of the loop over [repo["files"]]: the subscripts [f['src']] and
    [f['dst']] are evaluated in this order before the call. *)
Definition process_directive (repo_path work_dir root_dir : str)
  (gen_absolute_links : bool) (f : file_directive) : M unit :=
  src <- match f_src f with
         | Some s => ret s
         | None => raise (KeyError (lit "src"))
         end ;;
  dst <- match f_dst f with
         | Some d => ret d
         | None => raise (KeyError (lit "dst"))
         end ;;
  process_file src dst repo_path work_dir root_dir gen_absolute_links.

(** The body of the loop of [main] over [repos]. *)
Definition process_repo (k8s_release root_dir work_dir : str) (repo : repo)
  : M unit :=
  match r_name repo with
  | None => print (lit "[Error] repo missing name")
  | Some repo_name =>
  match r_remote repo with
  | None => print (lit "[Error] repo " ++ repo_name ++ lit " missing repo path")
  | Some repo_remote =>
  match Re.search remote_regex repo_remote with
  | None =>
      print (lit "[Error] repo path for " ++ repo_name ++ lit " is invalid")
  | Some matches =>
      let repo_path :=
        PosixPath.join (lit "src") [Re.group matches "prefix"] in
      do_chdir work_dir ;;
      print (lit "Cloning repo " ++ repo_name) ;;
      branch <- match r_branch repo with
                | Some b => ret b
                | None => raise (KeyError (lit "branch"))
                end ;;
      let cmd := lit "git clone --depth=1 -b " ++ branch ++ lit " "
                 ++ repo_remote ++ lit " " ++ repo_path in
      res <- call cmd ;;
      if negb (res =? 0)%Z
      then print (lit "[Error] failed in cloning repo " ++ repo_name)
      else
        do_chdir repo_path ;;
        generated <-
          match r_generate_command repo with
          | None => ret true
          | Some gen_cmd =>
              let gen_cmd :=
                lit "export K8S_RELEASE=" ++ k8s_release ++ [nl]
                ++ lit "export GOPATH=" ++ work_dir ++ [nl]
                ++ lit "export K8S_ROOT=" ++ work_dir
                ++ lit "/src/k8s.io/kubernetes" ++ [nl]
                ++ lit "export K8S_WEBROOT=" ++ root_dir ++ [nl] ++ gen_cmd in
              print (lit "Generating docs for " ++ repo_name ++ lit " with "
                     ++ gen_cmd) ;;
              res <- call gen_cmd ;;
              if negb (res =? 0)%Z
              then
                print (lit "[Error] failed in generating docs for "
                       ++ repo_name) ;;
                ret false
              else ret true
          end ;;
        if generated
        then
          do_chdir root_dir ;;
          files <- match r_files repo with
                   | Some fs => ret fs
                   | None => raise (KeyError (lit "files"))
                   end ;;
          for_each files
            (process_directive repo_path work_dir root_dir
               (r_gen_absolute_links repo))
        else ret tt
  end end end.

Definition completed_msg (work_dir : str) : str :=
  lit "Completed docs update. Now run the following command to commit:"
  ++ [nl; nl] ++ lit " git add ." ++ [nl] ++ lit " git commit -m <comment>"
  ++ [nl] ++ lit " git push" ++ [nl] ++ lit " delete temp dir " ++ work_dir
  ++ lit " when done ".

Definition main (error_msgs : list str) : M (option Z) :=
  if 0 <? length error_msgs
  then
    for_each error_msgs (fun msg => print (msg ++ [nl])) ;;
    ret (Some (-2)%Z)
  else
    in_args <- ask parse_args ;;
    match in_args with
    | None => raise (SystemExit 2)
    | Some (config_file, k8s_release) =>
        print (lit "config_file is " ++ config_file) ;;
        print (lit "k8s_release is " ++ k8s_release) ;;
        (if length k8s_release =? 4
         then print (lit "k8s_release updated to " ++ normalize_release k8s_release)
         else ret tt) ;;
        let k8s_release := normalize_release k8s_release in
        file <- ask script_abspath ;;
        let curr_dir := PosixPath.dirname file in
        print (lit "curr_dir " ++ curr_dir) ;;
        root_dir <- ask (realpath (PosixPath.join curr_dir [lit ".."])) ;;
        print (lit "root_dir " ++ root_dir) ;;
        loaded <- ask (yaml_full_load config_file) ;;
        match loaded with
        | inl ex =>
            print (lit "[Error] failed in loading config file - " ++ ex) ;;
            ret (Some (-2)%Z)
        | inr config_data =>
            do_chdir root_dir ;;
            print (lit "Making temp work_dir") ;;
            system <- ask platform_system ;;
            tmp <- ask gettempdir ;;
            made <- ask (mkdtemp (if Py.str_eqb system (lit "Darwin")
                                  then lit "/tmp" else tmp)) ;;
            match made with
            | inl _ => raise (UnboundLocalError (lit "work_dir"))
            | inr (work_dir, w) =>
                set_world w ;;
                print (lit "Working dir " ++ work_dir) ;;
                repos <- match c_repos config_data with
                         | Some rs => ret rs
                         | None => raise (KeyError (lit "repos"))
                         end ;;
                for_each repos (process_repo k8s_release root_dir work_dir) ;;
                print (completed_msg work_dir) ;;
                ret None
            end
        end
    end.

(** The whole run: the module-level checks, then [sys.exit(main())]. *)
Definition script : M (option Z) :=
  error_msgs <- preflight ;;
  main error_msgs.

End Program.

(** ** A small machine to run the script on

    A file system as an association list (the latest binding first), the
    tools on the search path, the output of the package listing, the parsed
    command line, the parsed configuration, and the exit status of every
    shell command. *)

Record sim : Type := Sim {
  sim_tools : list str;
  sim_pip : option str;
  sim_args : option (str * str);
  sim_root : str;
  sim_config : str + config;
  sim_tmp_ok : bool;
  sim_shell : str -> Z;
  sim_glob : str -> list str;
  sim_files : list (str * str)
}.

Fixpoint sim_lookup (path : str) (fs : list (str * str)) : option str :=
  match fs with
  | [] => None
  | (p, c) :: rest => if Py.str_eqb p path then Some c else sim_lookup path rest
  end.

Definition sim_store (path content : str) (w : sim) : sim :=
  Sim (sim_tools w) (sim_pip w) (sim_args w) (sim_root w) (sim_config w)
      (sim_tmp_ok w) (sim_shell w) (sim_glob w)
      ((path, content) :: sim_files w).

#[export] Instance sim_os : OS sim := {|
  which name w := Py.contains (sim_tools w) name;
  pip_freeze w := sim_pip w;
  parse_args w := sim_args w;
  script_abspath w :=
    sim_root w ++ lit "/update-imported-docs/update-imported-docs.py";
  realpath _ w := sim_root w;
  yaml_full_load _ w := sim_config w;
  platform_system _ := lit "Linux";
  gettempdir _ := lit "/tmp";
  mkdtemp dir w :=
    if sim_tmp_ok w then inr (dir ++ lit "/tmpk8sdocs", w)
    else inl (lit "No space left on device");
  chdir _ w := w;
  subprocess_call cmd w := (sim_shell w cmd, w);
  glob pattern w := sim_glob w pattern;
  isfile path w :=
    match sim_lookup path (sim_files w) with Some _ => true | None => false end;
  read_text path w :=
    match sim_lookup path (sim_files w) with
    | Some c => inr c
    | None => inl (lit "No such file or directory")
    end;
  open_w path w := inr (sim_store path [] w);
  write_text path content w := inr (sim_store path content w)
|}.

(** Running a computation on a machine with an empty trace. *)
Definition run_on {W A : Type} (c : M (W:=W) A) (w : W) : result A * list event :=
  let (r, st) := c (w, []) in (r, snd st).

(** A machine with the tools installed, a configuration of one repository
    whose remote is not an https URL, and a git that fails. *)
Definition invalid_repo : repo :=
  Repo (Some (lit "reference-docs"))
       (Some (lit "git@github.com:kubernetes-sigs/reference-docs.git"))
       (Some (lit "master")) None false (Some []).

Definition valid_repo : repo :=
  Repo (Some (lit "reference-docs"))
       (Some (lit "https://github.com/kubernetes-sigs/reference-docs.git"))
       (Some (lit "master")) None false (Some []).

Definition sim_invalid : sim :=
  Sim [lit "pip"; lit "go"] (Some (lit "PyYAML==5.1.2"))
      (Some (lit "reference.yml", lit "1.17")) (lit "/site")
      (inr (Config (Some [invalid_repo]))) true (fun _ => 1%Z) (fun _ => []) [].

(** A machine whose work directory holds one page of one repository. *)
Definition sim_docs : sim :=
  Sim [lit "pip"; lit "go"] (Some (lit "PyYAML==5.1.2"))
      (Some (lit "reference.yml", lit "1.17")) (lit "/site")
      (inr (Config (Some []))) true (fun _ => 0%Z)
      (fun pattern =>
         if Py.str_eqb pattern (lit "/tmp/tmpk8sdocs/src/k8s.io/x/docs/*.md")
         then [lit "/tmp/tmpk8sdocs/src/k8s.io/x/docs/a.md"] else [])
      [(lit "/tmp/tmpk8sdocs/src/k8s.io/x/docs/a.md", lit "See [b](b.md)")].

(** A machine without pip and without go: neither executable is on the
    search path and the interpreter has no pip module to list packages
    with. *)
Definition sim_bare : sim :=
  Sim [] None (Some (lit "reference.yml", lit "1.17")) (lit "/site")
      (inr (Config (Some []))) true (fun _ => 0%Z) (fun _ => []) [].

(** A machine with pip but without PyYAML and without go. *)
Definition sim_no_yaml_no_go : sim :=
  Sim [lit "pip3"] (Some (lit "requests==2.0 six==1.1"))
      (Some (lit "reference.yml", lit "1.17")) (lit "/site")
      (inr (Config (Some []))) true (fun _ => 0%Z) (fun _ => []) [].

(** ** The vocabulary of the statements *)

(** The string [s] holds no occurrence of the character [c]. *)
Definition lacks (c : ascii) (s : str) : Prop :=
  forallb (fun x => negb (Ascii.eqb x c)) s = true.

Definition no_newline (s : str) : Prop := lacks nl s.

(** What may follow a line: the end of the text, or a newline and more
    text. *)
Definition line_end (tail : str) : Prop :=
  match tail with
  | [] => True
  | c :: _ => c = nl
  end.

(** Patterns without the anchor of the start of the string match the same
    way at every position. *)
Fixpoint bol_free (r : Re.regex) : bool :=
  match r with
  | Re.Bol => false
  | Re.Seq r1 r2 => bol_free r1 && bol_free r2
  | Re.Opt r1 | Re.Group _ r1 => bol_free r1
  | _ => true
  end.

(** The star of the class [a] cannot go on into [l]. *)
Definition stops (a : Re.atom) (l : str) : Prop :=
  match l with
  | [] => True
  | c :: _ => Re.atom_ok a c = false
  end.

(** The URL the specification asks for in place of [url]: left alone when it
    starts with https://, mailto: or a hash sign, under the remote prefix
    without its leading slash when it starts with a slash, and otherwise
    under the remote prefix and the directory of the page. *)
Definition absolute_url (remote_prefix sub_path url : str) : str :=
  if Py.startswith url (lit "https://") then url
  else if Py.startswith url (lit "mailto:") then url
  else if Py.startswith url (lit "#") then url
  else if Py.startswith url (lit "/")
       then remote_prefix ++ lit "/" ++ skipn 1 url
       else remote_prefix ++ lit "/" ++ sub_path ++ lit "/" ++ url.

(** The URLs [process_links] leaves alone. *)
Definition already_absolute (url : str) : bool :=
  Py.startswith url (lit "https://")
  || Py.startswith url (lit "mailto:")
  || Py.startswith url (lit "#").

(** The URLs [process_kubectl_links] rewrites. *)
Definition kubectl_page (url : str) : bool :=
  Py.endswith url (lit ".md") && Py.startswith url (lit "kubectl").

(** [sep] occurs somewhere in [s]. *)
Fixpoint occurs (sep s : str) : bool :=
  match s with
  | [] => Py.startswith [] sep
  | _ :: t => Py.startswith s sep || occurs sep t
  end.

(** A continuation that starts with the literal [x]. *)
Definition needs (x : ascii) (k : Re.cont) : Prop :=
  forall l p cs,
    match l with [] => True | c :: _ => c <> x end -> k l p cs = None.

(** A computation only adds to the trace. *)
Definition extends {W : Type} {A : Type} (c : M (W:=W) A) : Prop :=
  forall st, exists rest, snd (snd (c st)) = snd st ++ rest.

(** Every event a computation adds to the trace satisfies [P]. *)
Definition emits {W : Type} {A : Type} (P : event -> Prop)
  (c : M (W:=W) A) : Prop :=
  forall st, exists rest, snd (snd (c st)) = snd st ++ rest /\ Forall P rest.

(** What [process_file] may do for a directive whose destination path is
    [dst_path]: print, and open or write a path that starts with it. *)
Definition file_event (dst_path : str) (e : event) : Prop :=
  match e with
  | Print _ => True
  | OpenW p | WriteText p _ => Py.startswith p dst_path = true
  | Chdir _ | Shell _ => False
  end.

(** The four export lines put in front of the generate command. *)
Definition exports (k8s_release work_dir root_dir : str) : str :=
  lit "export K8S_RELEASE=" ++ k8s_release ++ [nl]
  ++ lit "export GOPATH=" ++ work_dir ++ [nl]
  ++ lit "export K8S_ROOT=" ++ work_dir ++ lit "/src/k8s.io/kubernetes" ++ [nl]
  ++ lit "export K8S_WEBROOT=" ++ root_dir ++ [nl].

(** A machine whose work directory holds a kubectl page with a link to
    another tool. *)
Definition sim_kubectl : sim :=
  Sim [lit "pip"; lit "go"] (Some (lit "PyYAML==5.1.2"))
      (Some (lit "reference.yml", lit "1.17")) (lit "/site")
      (inr (Config (Some []))) true (fun _ => 0%Z)
      (fun _ => [lit "/tmp/w/src/k8s.io/x/docs/kubectl.md"])
      [(lit "/tmp/w/src/k8s.io/x/docs/kubectl.md",
        lit "* [kubeadm](kubectl_kubeadm.md) - see also")].

(** A machine on which the glob returns two directories. *)
Definition sim_dirs : sim :=
  Sim [lit "pip"; lit "go"] (Some (lit "PyYAML==5.1.2"))
      (Some (lit "reference.yml", lit "1.17")) (lit "/site")
      (inr (Config (Some []))) true (fun _ => 0%Z)
      (fun _ => [lit "/tmp/w/src/k8s.io/x/docs/images";
                 lit "/tmp/w/src/k8s.io/x/docs/css"])
      [].

(** What [process_file] prints for a path it passes over. *)
Definition skipped {W : Type} {os : OS W} (w : W) (path : str) : event :=
  if isfile path w
  then Print (lit "[Error] failed in reading source file: ")
  else Print (lit "[Error] skipping non-regular path " ++ path).

(** A repository with a generate command and two directives, and a machine
    on which git works and the generator fails. *)
Definition gen_repo : repo :=
  Repo (Some (lit "reference-docs"))
       (Some (lit "https://github.com/kubernetes-sigs/reference-docs.git"))
       (Some (lit "master")) (Some (lit "cd gen-compdocs && make cli"))
       false
       (Some [FileDirective (Some (lit "gen-compdocs/build/*.md"))
                            (Some (lit "content/en/docs/reference/"));
              FileDirective (Some (lit "gen-compdocs/build/kubectl.md"))
                            (Some (lit "content/en/docs/kubectl.md"))]).

Definition sim_gen_fails : sim :=
  Sim [lit "pip"; lit "go"] (Some (lit "PyYAML==5.1.2"))
      (Some (lit "reference.yml", lit "1.17")) (lit "/site")
      (inr (Config (Some [gen_repo]))) true
      (fun cmd => if Py.startswith cmd (lit "git clone") then 0%Z else 2%Z)
      (fun _ => []) [].

(** A machine on which git and the generator work and the globs find
    nothing. *)
Definition sim_gen_ok : sim :=
  Sim [lit "pip"; lit "go"] (Some (lit "PyYAML==5.1.2"))
      (Some (lit "reference.yml", lit "1.17")) (lit "/site")
      (inr (Config (Some [gen_repo]))) true (fun _ => 0%Z) (fun _ => []) [].

(** A machine on which git and the generator work and the build directory
    of the clone holds one page for each directive. *)
Definition sim_gen_pages : sim :=
  Sim [lit "pip"; lit "go"] (Some (lit "PyYAML==5.1.2"))
      (Some (lit "reference.yml", lit "1.17")) (lit "/site")
      (inr (Config (Some [gen_repo]))) true (fun _ => 0%Z)
      (fun pattern =>
         if Py.endswith pattern (lit "build/*.md")
         then [lit "/tmp/w/src/github.com/kubernetes-sigs/reference-docs/gen-compdocs/build/kubeadm.md"]
         else [lit "/tmp/w/src/github.com/kubernetes-sigs/reference-docs/gen-compdocs/build/kubectl.md"])
      [(lit "/tmp/w/src/github.com/kubernetes-sigs/reference-docs/gen-compdocs/build/kubeadm.md",
        lit "kubeadm");
       (lit "/tmp/w/src/github.com/kubernetes-sigs/reference-docs/gen-compdocs/build/kubectl.md",
        lit "* [kubectl get](kubectl_get.md)")].

(** A machine whose work directory holds two pages of one repository. *)
Definition sim_two_pages : sim :=
  Sim [lit "pip"; lit "go"] (Some (lit "PyYAML==5.1.2"))
      (Some (lit "reference.yml", lit "1.17")) (lit "/site")
      (inr (Config (Some []))) true (fun _ => 0%Z)
      (fun _ => [lit "/tmp/w/src/k8s.io/x/docs/a.md";
                 lit "/tmp/w/src/k8s.io/x/docs/b.md"])
      [(lit "/tmp/w/src/k8s.io/x/docs/a.md", lit "# A" ++ nl :: lit "See [b](b.md)");
       (lit "/tmp/w/src/k8s.io/x/docs/b.md", lit "B")].


(** A repository without the key branch. *)
Definition no_branch_repo : repo :=
  Repo (Some (lit "reference-docs"))
       (Some (lit "https://github.com/kubernetes-sigs/reference-docs.git"))
       None None false (Some []).

(** The shell commands of a repository processed with the release
    [k8s_release]: a clone, or a generate command that starts with the
    export of that release. *)
Definition exports_release (k8s_release : str) (e : event) : Prop :=
  match e with
  | Shell cmd =>
      Py.startswith cmd (lit "git clone --depth=1 -b ") = true
      \/ Py.startswith cmd
           (lit "export K8S_RELEASE=" ++ k8s_release ++ [nl]) = true
  | _ => True
  end.

(** What [main] prints before it loads the configuration. *)
Definition prologue (config_file release curr_dir root_dir : str)
  : list event :=
  [Print (lit "config_file is " ++ config_file);
   Print (lit "k8s_release is " ++ release)]
  ++ (if length release =? 4
      then [Print (lit "k8s_release updated to " ++ normalize_release release)]
      else [])
  ++ [Print (lit "curr_dir " ++ curr_dir);
      Print (lit "root_dir " ++ root_dir)].

(** A machine whose configuration file cannot be loaded, and one whose
    temporary directory cannot be made. *)
Definition sim_no_config : sim :=
  Sim [lit "pip"; lit "go"] (Some (lit "PyYAML==5.1.2"))
      (Some (lit "missing.yml", lit "1.17.0")) (lit "/site")
      (inl (lit "[Errno 2] No such file or directory: 'missing.yml'"))
      true (fun _ => 0%Z) (fun _ => []) [].

Definition sim_no_tmp : sim :=
  Sim [lit "pip"; lit "go"] (Some (lit "PyYAML==5.1.2"))
      (Some (lit "reference.yml", lit "1.17")) (lit "/site")
      (inr (Config (Some [gen_repo]))) false (fun _ => 0%Z) (fun _ => []) [].

(** * Properties *)

(** ** Strings and paths *)

Module PyFacts.

Import Py.

Lemma startswith_app (p s : str) : startswith (p ++ s) p = true.
Proof.
  induction p as [|x p IH]; simpl; [reflexivity|].
  now rewrite Ascii.eqb_refl, IH.
Qed.

Lemma startswith_inv (p s : str) :
  startswith s p = true -> exists t, s = p ++ t.
Proof.
  revert s; induction p as [|x p IH]; intros s H; simpl in *.
  - now exists s.
  - destruct s as [|c s]; [discriminate|].
    apply andb_true_iff in H as [Hc Hs].
    apply Ascii.eqb_eq in Hc; subst c.
    destruct (IH _ Hs) as [t ->]. now exists t.
Qed.

Lemma startswith_cons_neq (c x : ascii) (s p : str) :
  c <> x -> startswith (c :: s) (x :: p) = false.
Proof.
  intros H; simpl. apply Ascii.eqb_neq in H. now rewrite H.
Qed.

Lemma endswith_app (s p : str) : endswith (s ++ p) p = true.
Proof.
  unfold endswith. rewrite rev_app_distr. apply startswith_app.
Qed.

Lemma endswith_inv (s p : str) :
  endswith s p = true -> exists t, s = t ++ p.
Proof.
  unfold endswith; intros H.
  destruct (startswith_inv _ _ H) as [t Ht].
  exists (rev t).
  rewrite <- (rev_involutive s), Ht, rev_app_distr, rev_involutive.
  reflexivity.
Qed.

Lemma str_eqb_refl (a : str) : str_eqb a a = true.
Proof.
  unfold str_eqb. rewrite Nat.eqb_refl; simpl.
  rewrite <- (app_nil_r a) at 1. apply startswith_app.
Qed.

Lemma str_eqb_eq (a b : str) : str_eqb a b = true -> a = b.
Proof.
  unfold str_eqb; intros H. apply andb_true_iff in H as [Hl Hs].
  apply Nat.eqb_eq in Hl. destruct (startswith_inv _ _ Hs) as [t ->].
  rewrite length_app in Hl.
  destruct t; [now rewrite app_nil_r|simpl in Hl; lia].
Qed.

End PyFacts.

Module PathFacts.

Import PosixPath.

Lemma take_while_forall (p : ascii -> bool) (l : str) :
  forallb p (take_while p l) = true.
Proof.
  induction l as [|c l IH]; simpl; [reflexivity|].
  destruct (p c) eqn:E; simpl; [now rewrite E|reflexivity].
Qed.

Lemma forallb_rev_true (p : ascii -> bool) (l : str) :
  forallb p l = true -> forallb p (rev l) = true.
Proof.
  rewrite !forallb_forall. intros H x Hx. apply H. now apply in_rev.
Qed.

Lemma basename_no_slash (p : str) :
  forallb (fun c => negb (is_slash c)) (basename p) = true.
Proof.
  unfold basename. apply forallb_rev_true, take_while_forall.
Qed.

Lemma basename_not_absolute (p : str) :
  Py.startswith (basename p) [slash] = false.
Proof.
  pose proof (basename_no_slash p) as H.
  destruct (basename p) as [|c b]; [reflexivity|].
  simpl in *. apply andb_true_iff in H as [H _].
  unfold is_slash in H. now rewrite (proj1 (negb_true_iff _) H).
Qed.

Lemma join2_dir (d b : str) :
  Py.endswith d [slash] = true -> Py.startswith b [slash] = false ->
  join2 d b = d ++ b.
Proof.
  intros Hd Hb. unfold join2. rewrite Hb, Hd. now destruct d.
Qed.

Lemma join2_relative (d b : str) :
  d <> [] -> Py.endswith d [slash] = false ->
  Py.startswith b [slash] = false ->
  join2 d b = d ++ slash :: b.
Proof.
  intros Hn Hd Hb. unfold join2. rewrite Hb, Hd. destruct d; congruence.
Qed.

Lemma join2_absolute (d b : str) : join2 d (slash :: b) = slash :: b.
Proof. reflexivity. Qed.

End PathFacts.

(** ** The release string and the destination path *)

(** The release string gets the suffix .0 exactly when it has four
    characters, and is used as it is otherwise; nothing else is looked at. *)
Lemma normalize_release_four (k8s_release : str) :
  (length k8s_release = 4
   /\ normalize_release k8s_release = k8s_release ++ lit ".0"
   /\ length (normalize_release k8s_release) = 6)
  \/ (length k8s_release <> 4
      /\ normalize_release k8s_release = k8s_release).
Proof.
  unfold normalize_release.
  destruct (Nat.eqb_spec (length k8s_release) 4) as [E|E].
  - left. repeat split; trivial. rewrite length_app, E. reflexivity.
  - right. now split.
Qed.

Example normalize_release_1_17 :
  normalize_release (lit "1.17") = lit "1.17.0"
  /\ normalize_release (lit "1.17.0") = lit "1.17.0"
  /\ normalize_release (lit "v1.2") = lit "v1.2.0"
  /\ normalize_release (lit "1.9") = lit "1.9".
Proof. repeat split. Qed.


Example resolve_dst_examples :
  resolve_dst (PosixPath.join (lit "/site") [lit "content/en/docs/"])
              (lit "/tmp/w/src/k8s.io/foo.md")
  = lit "/site/content/en/docs/foo.md"
  /\ resolve_dst (PosixPath.join (lit "/site") [lit "content/en/docs/bar.md"])
                 (lit "/tmp/w/src/k8s.io/foo.md")
     = lit "/site/content/en/docs/bar.md".
Proof. split; reflexivity. Qed.

(** ** The matcher *)

Module ReFacts.

Import Re.

Lemma star_greedy_ext (a : atom) (k1 k2 : cont) :
  (forall l p cs, k1 l p cs = k2 l p cs) ->
  forall l pos cs, star_greedy a l pos cs k1 = star_greedy a l pos cs k2.
Proof.
  intros E l; induction l as [|c t IH]; intros pos cs; simpl.
  - apply E.
  - rewrite IH, E. reflexivity.
Qed.

Lemma star_lazy_ext (a : atom) (k1 k2 : cont) :
  (forall l p cs, k1 l p cs = k2 l p cs) ->
  forall l pos cs, star_lazy a l pos cs k1 = star_lazy a l pos cs k2.
Proof.
  intros E l; induction l as [|c t IH]; intros pos cs; simpl.
  - now rewrite E.
  - rewrite IH, E. reflexivity.
Qed.

Lemma run_ext (r : regex) :
  forall (k1 k2 : cont) l pos cs,
    (forall l' p' cs', k1 l' p' cs' = k2 l' p' cs') ->
    run r l pos cs k1 = run r l pos cs k2.
Proof.
  induction r as [|a|a|a|r1 IH1 r2 IH2|r1 IH1|name r1 IH1| |];
    intros k1 k2 l pos cs E; simpl.
  - apply E.
  - destruct l as [|c t]; [reflexivity|]. now rewrite E.
  - now apply star_greedy_ext.
  - now apply star_lazy_ext.
  - apply IH1. intros. now apply IH2.
  - rewrite (IH1 k1 k2), E; trivial.
  - apply IH1. intros. apply E.
  - now rewrite E.
  - destruct l as [|c [|c' t]]; rewrite ?E; reflexivity.
Qed.

Lemma star_greedy_shift (a : atom) (k : cont) (d : nat) :
  forall l pos cs,
    star_greedy a l (pos + d) cs k
    = star_greedy a l pos cs (fun l' p' cs' => k l' (p' + d) cs').
Proof.
  induction l as [|c t IH]; intros pos cs; simpl; [reflexivity|].
  now rewrite <- IH.
Qed.

Lemma star_lazy_shift (a : atom) (k : cont) (d : nat) :
  forall l pos cs,
    star_lazy a l (pos + d) cs k
    = star_lazy a l pos cs (fun l' p' cs' => k l' (p' + d) cs').
Proof.
  induction l as [|c t IH]; intros pos cs; simpl; [reflexivity|].
  now rewrite <- IH.
Qed.

Lemma run_shift (r : regex) :
  bol_free r = true ->
  forall (k : cont) d l pos cs,
    run r l (pos + d) cs k
    = run r l pos cs (fun l' p' cs' => k l' (p' + d) cs').
Proof.
  induction r as [|a|a|a|r1 IH1 r2 IH2|r1 IH1|name r1 IH1| |];
    intros F k d l pos cs; simpl in *; try discriminate.
  - reflexivity.
  - reflexivity.
  - apply star_greedy_shift.
  - apply star_lazy_shift.
  - apply andb_true_iff in F as [F1 F2].
    rewrite IH1 by exact F1. apply run_ext. intros. now apply IH2.
  - now rewrite IH1 by exact F.
  - rewrite IH1 by exact F. apply run_ext. intros.
    replace (p' + d - (pos + d)) with (p' - pos) by lia. reflexivity.
  - reflexivity.
Qed.

Lemma try_match_shift (r : regex) (l : str) (pos : nat) (b : bool) :
  bol_free r = true -> try_match r l pos b = try_match r l 0 b.
Proof.
  intros F. unfold try_match.
  change pos with (0 + pos) at 1. rewrite run_shift by exact F.
  apply run_ext. intros l' p' cs'; simpl.
  replace (p' + pos =? pos) with (p' =? 0).
  - now rewrite Nat.add_sub, Nat.sub_0_r.
  - destruct (Nat.eqb_spec p' 0), (Nat.eqb_spec (p' + pos) pos); trivial; lia.
Qed.

(** Greedy star: when no longer run of the class lets the rest of the
    pattern match, the star gives up the characters it took. *)
Lemma star_greedy_backtrack (a : atom) (k : cont) :
  forall l pos cs,
    (forall z1 z2, l = z1 ++ z2 -> z1 <> [] ->
                   forallb (atom_ok a) z1 = true ->
                   k z2 (pos + length z1) cs = None) ->
    star_greedy a l pos cs k = k l pos cs.
Proof.
  induction l as [|c t IH]; intros pos cs H; simpl; [reflexivity|].
  destruct (atom_ok a c) eqn:Hc; [|reflexivity].
  rewrite IH.
  - assert (E : k t (pos + length [c]) cs = None).
    { apply H; simpl; trivial; [discriminate|now rewrite Hc]. }
    simpl in E. rewrite Nat.add_1_r in E. now rewrite E.
  - intros z1 z2 -> Hn Hz.
    replace (S pos + length z1) with (pos + length (c :: z1)) by (simpl; lia).
    apply H; simpl; try discriminate; trivial. now rewrite Hc.
Qed.

(** Greedy star: the split after [xs] is the one taken when the rest of the
    pattern matches there and at no longer run. *)
Lemma star_greedy_split (a : atom) (k : cont) (res : nat * caps) :
  forall xs zs pos cs,
    forallb (atom_ok a) xs = true ->
    k zs (pos + length xs) cs = Some res ->
    (forall z1 z2, zs = z1 ++ z2 -> z1 <> [] ->
                   forallb (atom_ok a) z1 = true ->
                   k z2 (pos + length xs + length z1) cs = None) ->
    star_greedy a (xs ++ zs) pos cs k = Some res.
Proof.
  induction xs as [|x xs IH]; intros zs pos cs Hx Hk Hfail; simpl in *.
  - rewrite Nat.add_0_r in *. rewrite star_greedy_backtrack; trivial.
  - apply andb_true_iff in Hx as [Hx1 Hx2]. rewrite Hx1.
    rewrite (IH zs (S pos) cs); trivial.
    + now replace (S pos + length xs) with (pos + S (length xs)) by lia.
    + intros. replace (S pos + length xs) with (pos + S (length xs)) by lia.
      now apply Hfail.
Qed.

(** Greedy star in front of a character outside the class. *)
Lemma star_greedy_stop (a : atom) (k : cont) (res : nat * caps) :
  forall xs zs pos cs,
    forallb (atom_ok a) xs = true -> stops a zs ->
    k zs (pos + length xs) cs = Some res ->
    star_greedy a (xs ++ zs) pos cs k = Some res.
Proof.
  intros xs zs pos cs Hx Hs Hk. apply star_greedy_split; trivial.
  intros z1 z2 -> Hn Hz. destruct z1 as [|c z1]; [congruence|].
  simpl in Hs, Hz. now rewrite Hs in Hz.
Qed.

(** What a successful greedy star has done. *)
Lemma star_greedy_inv (a : atom) (k : cont) (res : nat * caps) :
  forall l pos cs,
    star_greedy a l pos cs k = Some res ->
    exists xs zs, l = xs ++ zs /\ forallb (atom_ok a) xs = true
                  /\ k zs (pos + length xs) cs = Some res.
Proof.
  induction l as [|c t IH]; intros pos cs H; simpl in H.
  - exists [], []. simpl. now rewrite Nat.add_0_r.
  - destruct (atom_ok a c) eqn:Hc.
    + destruct (star_greedy a t (S pos) cs k) eqn:E.
      * inversion H; subst. destruct (IH _ _ E) as (xs & zs & -> & Hx & Hk).
        exists (c :: xs), zs. simpl. rewrite Hc, Hx.
        now replace (pos + S (length xs)) with (S pos + length xs) by lia.
      * exists [], (c :: t). simpl. now rewrite Nat.add_0_r.
    + exists [], (c :: t). simpl. now rewrite Nat.add_0_r.
Qed.

(** Lazy star: the first split at which the rest of the pattern matches. *)
Lemma star_lazy_split (a : atom) (k : cont) :
  forall xs zs pos cs,
    forallb (atom_ok a) xs = true ->
    (forall z1 z2, xs = z1 ++ z2 -> z2 <> [] ->
                   k (z2 ++ zs) (pos + length z1) cs = None) ->
    star_lazy a (xs ++ zs) pos cs k = star_lazy a zs (pos + length xs) cs k.
Proof.
  induction xs as [|x xs IH]; intros zs pos cs Hx Hfail; simpl in *.
  - now rewrite Nat.add_0_r.
  - apply andb_true_iff in Hx as [Hx1 Hx2].
    assert (E : k ((x :: xs) ++ zs) (pos + length (@nil ascii)) cs = None).
    { apply Hfail; simpl; trivial; discriminate. }
    simpl in E. rewrite Nat.add_0_r in E. rewrite E.
    rewrite Hx1, IH; trivial.
    + now replace (S pos + length xs) with (pos + S (length xs)) by lia.
    + intros z1 z2 -> Hn.
      replace (S pos + length z1) with (pos + length (x :: z1)) by (simpl; lia).
      now apply Hfail.
Qed.

Lemma star_lazy_here (a : atom) (k : cont) (res : nat * caps) l pos cs :
  k l pos cs = Some res -> star_lazy a l pos cs k = Some res.
Proof. intros H. destruct l; simpl; now rewrite H. Qed.

Lemma star_lazy_inv (a : atom) (k : cont) (res : nat * caps) :
  forall l pos cs,
    star_lazy a l pos cs k = Some res ->
    exists xs zs, l = xs ++ zs /\ forallb (atom_ok a) xs = true
                  /\ k zs (pos + length xs) cs = Some res.
Proof.
  induction l as [|c t IH]; intros pos cs H; simpl in H.
  - destruct (k [] pos cs) eqn:E; [|discriminate].
    exists [], []. simpl. rewrite Nat.add_0_r. repeat split; congruence.
  - destruct (k (c :: t) pos cs) eqn:E.
    + exists [], (c :: t). simpl. rewrite Nat.add_0_r.
      repeat split; congruence.
    + destruct (atom_ok a c) eqn:Hc; [|discriminate].
      destruct (IH _ _ H) as (xs & zs & -> & Hx & Hk).
      exists (c :: xs), zs. simpl. rewrite Hc, Hx.
      now replace (pos + S (length xs)) with (S pos + length xs) by lia.
Qed.

End ReFacts.

(** ** The scan of [re.sub] *)

Module ScanFacts.

Import Re ReFacts.

Lemma scan_skip_cons r c t pos n :
  scan r (c :: t) pos (S n) = scan r t (S pos) n.
Proof. reflexivity. Qed.

Lemma scan_nomatch_cons r c t pos :
  try_match r (c :: t) pos false = None ->
  scan r (c :: t) pos 0 = Ch c :: scan r t (S pos) 0.
Proof. intros H. simpl. now rewrite H. Qed.

Lemma scan_nomatch_nil r pos :
  try_match r [] pos false = None -> scan r [] pos 0 = [].
Proof. intros H. simpl. now rewrite H. Qed.

Lemma scan_match_cons r c t pos n cs :
  try_match r (c :: t) pos false = Some (S n, cs) ->
  scan r (c :: t) pos 0 = Mt (mk_match (c :: t) (S n, cs)) :: scan r t (S pos) n.
Proof. intros H. simpl. now rewrite H. Qed.

Lemma render_chars repl (l : str) : render repl (map Ch l) = l.
Proof. induction l as [|c l IH]; simpl; [|rewrite IH]; reflexivity. Qed.

Lemma render_match repl m ps :
  render repl (Mt m :: ps) = repl m ++ render repl ps.
Proof. reflexivity. Qed.

Lemma render_app repl ps qs :
  render repl (ps ++ qs) = render repl ps ++ render repl qs.
Proof. apply flat_map_app. Qed.

Lemma render_ext repl1 repl2 ps :
  (forall m, In (Mt m) ps -> repl1 m = repl2 m) ->
  render repl1 ps = render repl2 ps.
Proof.
  induction ps as [|p ps IH]; intros H; simpl; [reflexivity|].
  rewrite IH by (intros; apply H; now right).
  destruct p as [c|m]; [reflexivity|]. rewrite (H m); trivial. now left.
Qed.

(** The pieces of a scan, each match rendered by its own text, give back the
    part of the string that was scanned. *)
Lemma scan_text r :
  forall l pos skip, render m_text (scan r l pos skip) = skipn skip l.
Proof.
  induction l as [|c t IH]; intros pos skip.
  - destruct skip as [|n]; [|reflexivity]. simpl.
    destruct (try_match r [] pos false) as [[[|n] cs]|]; simpl; trivial.
    destruct (try_match r [] pos true) as [[[|n] cs2]|]; reflexivity.
  - destruct skip as [|n]; [|apply IH].
    cbn [scan].
    destruct (try_match r (c :: t) pos false) as [[[|n] cs]|]; cbn [fst].
    + destruct (try_match r (c :: t) pos true) as [[[|n] cs2]|]; cbn [fst];
        simpl; rewrite IH; simpl; trivial.
      now rewrite firstn_skipn.
    + simpl. rewrite IH. now rewrite firstn_skipn.
    + simpl. now rewrite IH.
Qed.

(** Every match of a scan is the result of one attempt of the matcher. *)
Lemma scan_matches r m :
  forall l pos skip,
    In (Mt m) (scan r l pos skip) ->
    exists l' pos' b res,
      try_match r l' pos' b = Some res /\ m = mk_match l' res.
Proof.
  induction l as [|c t IH]; intros pos skip H.
  - destruct skip as [|n]; [|destruct H]. simpl in H.
    destruct (try_match r [] pos false) as [[[|n] cs]|] eqn:E1; simpl in H.
    + destruct H as [H|H]; [inversion H; eauto 6|].
      destruct (try_match r [] pos true) as [[[|n] cs2]|] eqn:E2; simpl in H;
        try contradiction.
      destruct H as [H|[]]. inversion H; eauto 6.
    + destruct H as [H|[]]. inversion H; eauto 6.
    + contradiction.
  - destruct skip as [|n]; [|now apply IH in H].
    cbn [scan] in H.
    destruct (try_match r (c :: t) pos false) as [[[|n] cs]|] eqn:E1;
      cbn [fst] in H.
    + destruct H as [H|H]; [inversion H; eauto 6|].
      destruct (try_match r (c :: t) pos true) as [[[|n] cs2]|] eqn:E2;
        cbn [fst] in H.
      * destruct H as [H|H]; [discriminate|now apply IH in H].
      * destruct H as [H|H]; [inversion H; eauto 6|now apply IH in H].
      * destruct H as [H|H]; [discriminate|now apply IH in H].
    + destruct H as [H|H]; [inversion H; eauto 6|now apply IH in H].
    + destruct H as [H|H]; [discriminate|now apply IH in H].
Qed.

(** A replacement that gives back the text of every match leaves the string
    as it is. *)
Lemma sub_unchanged r repl (s : str) :
  (forall m, In (Mt m) (scan r s 0 0) -> repl m = m_text m) ->
  sub r repl s = s.
Proof.
  intros H. unfold sub. rewrite (render_ext repl m_text _ H).
  now rewrite scan_text.
Qed.

Lemma scan_shift r :
  bol_free r = true ->
  forall l pos skip, scan r l pos skip = scan r l 0 skip.
Proof.
  intros F. induction l as [|c t IH]; intros pos skip.
  - destruct skip; [|reflexivity]. simpl.
    now rewrite !(try_match_shift r [] pos) by exact F.
  - destruct skip as [|n].
    + assert (E : forall n, scan r t (S pos) n = scan r t 1 n).
      { intros n. now rewrite (IH (S pos)), <- (IH 1). }
      cbn [scan]. rewrite !(try_match_shift r (c :: t) pos) by exact F.
      destruct (try_match r (c :: t) 0 false) as [[[|n] cs]|]; cbn [fst];
        rewrite ?E; trivial.
      destruct (try_match r (c :: t) 0 true) as [[[|n] cs2]|]; cbn [fst];
        rewrite ?E; trivial.
    + simpl. now rewrite (IH (S pos)), <- (IH 1).
Qed.

Lemma scan_over r :
  forall xs l pos, scan r (xs ++ l) pos (length xs) = scan r l (pos + length xs) 0.
Proof.
  induction xs as [|x xs IH]; intros l pos; simpl length.
  - now rewrite Nat.add_0_r.
  - simpl app. rewrite scan_skip_cons, IH. f_equal. lia.
Qed.

Lemma scan_chars r :
  forall pre l pos,
    (forall c t p, In c pre -> try_match r (c :: t) p false = None) ->
    scan r (pre ++ l) pos 0 = map Ch pre ++ scan r l (pos + length pre) 0.
Proof.
  induction pre as [|c pre IH]; intros l pos H; simpl length; simpl app.
  - now rewrite Nat.add_0_r.
  - rewrite scan_nomatch_cons by (apply H; now left).
    rewrite IH by (intros; apply H; now right).
    replace (S pos + length pre) with (pos + S (length pre)) by lia.
    reflexivity.
Qed.

Lemma scan_none r :
  forall l pos,
    (forall l' p, pos <= p -> try_match r l' p false = None) ->
    scan r l pos 0 = map Ch l.
Proof.
  induction l as [|c t IH]; intros pos H.
  - apply scan_nomatch_nil, H. lia.
  - rewrite scan_nomatch_cons by (apply H; lia).
    simpl. f_equal. apply IH. intros. apply H. lia.
Qed.

End ScanFacts.

(** ** The heading pattern *)

Module HeadingFacts.

Import Re ReFacts ScanFacts.

Lemma h1_later (l : str) (pos : nat) (b : bool) :
  pos <> 0 -> try_match h1_regex l pos b = None.
Proof.
  intros H. unfold try_match, h1_regex. simpl.
  destruct pos; [congruence|reflexivity].
Qed.

Lemma h1_blank (body : str) :
  try_match h1_regex (nl :: body) 0 false = Some (1, []).
Proof. reflexivity. Qed.

Lemma h1_heading (title body : str) :
  no_newline title ->
  try_match h1_regex (lit "# " ++ title ++ nl :: body) 0 false
  = Some (3 + length title, [("1"%string, lit "# " ++ title)]).
Proof.
  intros H. unfold try_match, h1_regex. simpl.
  erewrite star_greedy_stop; [reflexivity|exact H|reflexivity|].
  simpl. rewrite firstn_app, firstn_all, Nat.sub_diag. simpl.
  rewrite app_nil_r. reflexivity.
Qed.

Lemma h1_other (l : str) :
  Py.startswith l [nl] = false -> Py.startswith l (lit "# ") = false ->
  try_match h1_regex l 0 false = None.
Proof.
  intros Hn Hh. unfold try_match, h1_regex. cbn [run atom_ok Nat.eqb].
  destruct l as [|c t]; [reflexivity|].
  cbn [Py.startswith lit list_ascii_of_string] in Hn, Hh.
  rewrite andb_true_r in Hn.
  rewrite (Ascii.eqb_sym nl c), Hn.
  rewrite (Ascii.eqb_sym "#"%char c).
  destruct (Ascii.eqb c "#"); [|reflexivity].
  destruct t as [|c2 t]; [reflexivity|].
  rewrite andb_true_r in Hh. cbn [andb] in Hh.
  rewrite (Ascii.eqb_sym " "%char c2), Hh. reflexivity.
Qed.

Lemma h1_scan_rest (l : str) (pos : nat) :
  pos <> 0 -> scan h1_regex l pos 0 = map Ch l.
Proof.
  intros H. apply scan_none. intros l' p Hp. apply h1_later. lia.
Qed.

Lemma strip_blank (body : str) :
  sub h1_regex (fun _ => []) (nl :: body) = body.
Proof.
  unfold sub. rewrite (scan_match_cons _ _ _ _ _ _ (h1_blank body)).
  rewrite h1_scan_rest by lia. simpl. apply render_chars.
Qed.

Lemma strip_heading (title body : str) :
  no_newline title ->
  sub h1_regex (fun _ => []) (lit "# " ++ title ++ nl :: body) = body.
Proof.
  intros H. unfold sub.
  assert (E := h1_heading title body H).
  replace (lit "# " ++ title ++ nl :: body)
    with ("#"%char :: (" "%char :: title ++ [nl]) ++ body) in *
    by (simpl; now rewrite <- app_assoc).
  rewrite (scan_match_cons _ _ _ _ _ _ E).
  replace (S (S (length title))) with (length (" "%char :: title ++ [nl]))
    by (simpl; rewrite length_app; simpl; lia).
  rewrite scan_over, h1_scan_rest by lia. simpl. apply render_chars.
Qed.

Lemma strip_other (l : str) :
  Py.startswith l [nl] = false -> Py.startswith l (lit "# ") = false ->
  sub h1_regex (fun _ => []) l = l.
Proof.
  intros Hn Hh. unfold sub. pose proof (h1_other l Hn Hh) as E.
  destruct l as [|c t].
  - now rewrite scan_nomatch_nil.
  - rewrite scan_nomatch_cons by exact E.
    rewrite h1_scan_rest by lia. simpl. now rewrite render_chars.
Qed.

End HeadingFacts.

(** A text of one line is out of reach of the heading pattern. *)
Lemma h1_no_newline (l : str) :
  no_newline l -> Re.try_match h1_regex l 0 false = None.
Proof.
  intros H. unfold Re.try_match, h1_regex. cbn [Re.run Re.atom_ok Nat.eqb].
  assert (Hhead : forall c t, no_newline (c :: t) -> Ascii.eqb nl c = false).
  { intros c t Hc. unfold no_newline, lacks in Hc. cbn [forallb] in Hc.
    apply andb_true_iff in Hc as [Hc _]. apply negb_true_iff in Hc.
    now rewrite Ascii.eqb_sym. }
  assert (Htail : forall c t, no_newline (c :: t) -> no_newline t).
  { intros c t Hc. unfold no_newline, lacks in *. cbn [forallb] in Hc.
    now apply andb_true_iff in Hc as [_ Hc]. }
  destruct l as [|c t]; [reflexivity|].
  rewrite (Hhead c t H).
  destruct (Ascii.eqb "#" c); [|reflexivity].
  destruct t as [|c2 t]; [reflexivity|].
  destruct (Ascii.eqb " " c2); [|reflexivity].
  rewrite ReFacts.star_greedy_backtrack.
  - destruct t as [|c3 t]; [reflexivity|].
    now rewrite (Hhead c3 t (Htail _ _ (Htail _ _ H))).
  - intros z1 z2 -> Hn Hz.
    assert (Hz2 : no_newline z2).
    { pose proof (Htail _ _ (Htail _ _ H)) as Ht.
      unfold no_newline, lacks in *. rewrite forallb_app in Ht.
      now apply andb_true_iff in Ht as [_ Ht]. }
    destruct z2 as [|c3 z2]; [reflexivity|].
    now rewrite (Hhead c3 z2 Hz2).
Qed.

Lemma strip_single_line (l : str) :
  no_newline l -> Re.sub h1_regex (fun _ => []) l = l.
Proof.
  intros H. unfold Re.sub. pose proof (h1_no_newline l H) as E.
  destruct l as [|c t].
  - now rewrite ScanFacts.scan_nomatch_nil.
  - rewrite ScanFacts.scan_nomatch_cons by exact E.
    rewrite HeadingFacts.h1_scan_rest by lia.
    cbn [Re.render flat_map app]. f_equal. apply ScanFacts.render_chars.
Qed.

(** ** The leading line of a page *)

(** C3: after the links are rewritten, [process_links] drops one leading
    line, and only a heading line (a hash sign, a space, any title, a
    newline) or an empty line: with a heading first the result is what
    follows its newline, with an empty line first the result is what follows
    it, a text that starts with neither is returned as it is, and a second
    heading or empty line that follows the dropped one stays. *)
Theorem process_links_drops_one_leading_line
  (content remote_prefix sub_path : str) :
  let rewritten :=
    Re.sub link_regex (analyze remote_prefix sub_path) content in
  (forall title body,
      no_newline title -> rewritten = lit "# " ++ title ++ nl :: body ->
      process_links content remote_prefix sub_path = body)
  /\ (forall body,
         rewritten = nl :: body ->
         process_links content remote_prefix sub_path = body)
  /\ (Py.startswith rewritten [nl] = false ->
      Py.startswith rewritten (lit "# ") = false ->
      process_links content remote_prefix sub_path = rewritten)
  /\ (forall title next,
         no_newline title ->
         rewritten = lit "# " ++ title ++ nl :: lit "# " ++ next ->
         process_links content remote_prefix sub_path = lit "# " ++ next)
  /\ (forall next,
         rewritten = nl :: nl :: next ->
         process_links content remote_prefix sub_path = nl :: next).
Proof.
  intros rewritten. unfold process_links. fold rewritten.
  repeat split.
  - intros title body Ht ->. now apply HeadingFacts.strip_heading.
  - intros body ->. apply HeadingFacts.strip_blank.
  - intros Hn Hh. now apply HeadingFacts.strip_other.
  - intros title next Ht ->. now apply HeadingFacts.strip_heading.
  - intros next ->. apply HeadingFacts.strip_blank.
Qed.

Lemma process_links_drops_one_leading_line_witness :
  process_links (lit "# Title" ++ nl :: lit "Body") (lit "r") (lit "s")
  = lit "Body"
  /\ process_links (nl :: lit "Body") (lit "r") (lit "s") = lit "Body"
  /\ process_links (lit "Body") (lit "r") (lit "s") = lit "Body"
  /\ process_links (lit "# A" ++ nl :: lit "# B") (lit "r") (lit "s")
     = lit "# B"
  /\ process_links (nl :: nl :: lit "x") (lit "r") (lit "s") = nl :: lit "x".
Proof.
  split; [|split; [|split; [|split]]].
  - apply (proj1 (process_links_drops_one_leading_line
             (lit "# Title" ++ nl :: lit "Body") (lit "r") (lit "s"))
             (lit "Title") (lit "Body")); reflexivity.
  - apply (proj1 (proj2 (process_links_drops_one_leading_line
             (nl :: lit "Body") (lit "r") (lit "s")))); reflexivity.
  - apply (proj1 (proj2 (proj2 (process_links_drops_one_leading_line
             (lit "Body") (lit "r") (lit "s"))))); reflexivity.
  - apply (proj1 (proj2 (proj2 (proj2 (process_links_drops_one_leading_line
             (lit "# A" ++ nl :: lit "# B") (lit "r") (lit "s")))))
             (lit "A")); reflexivity.
  - apply (proj2 (proj2 (proj2 (proj2 (process_links_drops_one_leading_line
             (nl :: nl :: lit "x") (lit "r") (lit "s")))))); reflexivity.
Defined.

(** ** The link patterns *)

Module LinkFacts.

Import Re ReFacts ScanFacts.

Lemma link_regex_bol_free : bol_free link_regex = true.
Proof. reflexivity. Qed.

Lemma kubectl_link_regex_bol_free : bol_free kubectl_link_regex = true.
Proof. reflexivity. Qed.

Lemma firstn_prefix (n : nat) (xs l : str) :
  n = length xs -> firstn n (xs ++ l) = xs.
Proof.
  intros ->. rewrite firstn_app, firstn_all, Nat.sub_diag. simpl.
  apply app_nil_r.
Qed.

Lemma link_match_shape (l : str) (pos : nat) (b : bool) (n : nat) (cs : caps) :
  try_match link_regex l pos b = Some (n, cs) ->
  exists ankor target rest,
    l = format_link ankor target ++ rest
    /\ n = length (format_link ankor target)
    /\ cs = [("target"%string, target); ("ankor"%string, ankor)]
    /\ no_newline ankor /\ no_newline target.
Proof.
  rewrite try_match_shift by reflexivity.
  unfold try_match, link_regex. cbn [run atom_ok].
  destruct l as [|c l]; [discriminate|].
  destruct (Ascii.eqb_spec "["%char c) as [<-|]; [|discriminate].
  intros H.
  apply star_greedy_inv in H as (ankor & zs & -> & Ha & H).
  destruct zs as [|c zs]; [discriminate|].
  destruct (Ascii.eqb_spec "]"%char c) as [<-|]; [|discriminate].
  destruct zs as [|c zs]; [discriminate|].
  destruct (Ascii.eqb_spec "("%char c) as [<-|]; [|discriminate].
  apply star_greedy_inv in H as (target & ws & -> & Ht & H).
  destruct ws as [|c rest]; [discriminate|].
  destruct (Ascii.eqb_spec ")"%char c) as [<-|]; [|discriminate].
  rewrite Nat.sub_0_r in H.
  destruct (b && _) in H; [discriminate|].
  injection H as <- <-.
  exists ankor, target, rest. unfold format_link, no_newline.
  cbn [lit list_ascii_of_string app].
  split; [|split; [|split; [|split]]]; trivial.
  - repeat (rewrite <- app_assoc; cbn [app]). reflexivity.
  - cbn [length]. rewrite !length_app. cbn [length]. rewrite !length_app.
    cbn [length]. lia.
  - now rewrite !firstn_prefix by lia.
Qed.

Lemma kubectl_match_shape (l : str) (pos : nat) (b : bool) (n : nat) (cs : caps) :
  try_match kubectl_link_regex l pos b = Some (n, cs) ->
  exists ankor target rest,
    l = format_link ankor target ++ rest
    /\ n = length (format_link ankor target)
    /\ cs = [("target"%string, target); ("ankor"%string, ankor)]
    /\ no_newline ankor /\ no_newline target.
Proof.
  rewrite try_match_shift by reflexivity.
  unfold try_match, kubectl_link_regex. cbn [run atom_ok].
  destruct l as [|c l]; [discriminate|].
  destruct (Ascii.eqb_spec "["%char c) as [<-|]; [|discriminate].
  intros H.
  apply star_greedy_inv in H as (ankor & zs & -> & Ha & H).
  destruct zs as [|c zs]; [discriminate|].
  destruct (Ascii.eqb_spec "]"%char c) as [<-|]; [|discriminate].
  destruct zs as [|c zs]; [discriminate|].
  destruct (Ascii.eqb_spec "("%char c) as [<-|]; [|discriminate].
  apply star_lazy_inv in H as (target & ws & -> & Ht & H).
  destruct ws as [|c rest]; [discriminate|].
  destruct (Ascii.eqb_spec ")"%char c) as [<-|]; [|discriminate].
  rewrite Nat.sub_0_r in H.
  destruct (b && _) in H; [discriminate|].
  injection H as <- <-.
  exists ankor, target, rest. unfold format_link, no_newline.
  cbn [lit list_ascii_of_string app].
  split; [|split; [|split; [|split]]]; trivial.
  - repeat (rewrite <- app_assoc; cbn [app]). reflexivity.
  - cbn [length]. rewrite !length_app. cbn [length]. rewrite !length_app.
    cbn [length]. lia.
  - now rewrite !firstn_prefix by lia.
Qed.

Lemma lacks_in (x : ascii) (s : str) (c : ascii) :
  lacks x s -> In c s -> c <> x.
Proof.
  unfold lacks. rewrite forallb_forall. intros H Hc E.
  apply H in Hc. apply negb_true_iff, Ascii.eqb_neq in Hc. contradiction.
Qed.

Lemma lacks_app (x : ascii) (s t : str) :
  lacks x s -> lacks x t -> lacks x (s ++ t).
Proof.
  unfold lacks. rewrite forallb_app. intros -> ->. reflexivity.
Qed.

Lemma line_end_stops (tail : str) : line_end tail -> stops Dot tail.
Proof. destruct tail as [|c t]; simpl; [trivial|now intros ->]. Qed.

(** A run of the class that ends where the star has to stop lies within the
    line. *)
Lemma run_within (a : atom) (tail : str) :
  stops a tail ->
  forall m z1 z2,
    m ++ tail = z1 ++ z2 -> forallb (atom_ok a) z1 = true ->
    exists m2, m = z1 ++ m2 /\ z2 = m2 ++ tail.
Proof.
  intros Hs. induction m as [|x m IH]; intros z1 z2 E Hz.
  - destruct z1 as [|y z1]; [exists []; now split|].
    simpl in E. subst tail. simpl in Hs, Hz. now rewrite Hs in Hz.
  - destruct z1 as [|y z1]; [exists (x :: m); now split|].
    simpl in E, Hz. injection E as <- E.
    apply andb_true_iff in Hz as [_ Hz].
    destruct (IH _ _ E Hz) as (m2 & -> & ->). now exists m2.
Qed.

(** The greedy star on a line whose rest after [xs] holds the literal the
    pattern goes on with only at its head. *)
Lemma star_greedy_line (a : atom) (k : cont) (res : nat * caps) (x : ascii)
  (xs m tail : str) (pos : nat) (cs : caps) :
  forallb (atom_ok a) xs = true ->
  needs x k -> lacks x (tl m) -> stops a tail ->
  match tail with [] => True | c :: _ => c <> x end ->
  k (m ++ tail) (pos + length xs) cs = Some res ->
  star_greedy a (xs ++ m ++ tail) pos cs k = Some res.
Proof.
  intros Hx Hk Hm Hs Ht Hres.
  apply star_greedy_split; trivial.
  intros z1 z2 E Hn Hz.
  destruct (run_within a tail Hs m z1 z2 E Hz) as (m2 & -> & ->).
  apply Hk. destruct m2 as [|c m2]; [exact Ht|].
  simpl. apply (lacks_in x (tl (z1 ++ c :: m2))); trivial.
  destruct z1 as [|y z1]; [congruence|]. simpl.
  apply in_or_app. right. now left.
Qed.

Lemma line_end_not (x : ascii) (tail : str) :
  x <> nl -> line_end tail ->
  match tail with [] => True | c :: _ => c <> x end.
Proof. intros Hx. destruct tail as [|c t]; simpl; [trivial|]. now intros ->. Qed.

Lemma format_link_length (ankor target : str) :
  length (format_link ankor target) = 4 + length ankor + length target.
Proof.
  unfold format_link. cbn [lit list_ascii_of_string app length].
  rewrite !length_app. cbn [length]. rewrite !length_app. cbn [length]. lia.
Qed.

Lemma format_link_line (ankor target rest : str) :
  format_link ankor target ++ rest
  = "["%char :: ankor ++ ("]"%char :: "("%char :: target ++ ")"%char :: rest).
Proof.
  unfold format_link. cbn [lit list_ascii_of_string app].
  repeat (rewrite <- app_assoc; cbn [app]). reflexivity.
Qed.

(** The match of [link_regex] on a line that holds one link. *)
Lemma link_try_line (ankor target post tail : str) (b : bool) :
  no_newline ankor -> no_newline target -> lacks "]" target ->
  no_newline post -> lacks "]" post -> lacks ")" post -> line_end tail ->
  try_match link_regex (format_link ankor target ++ post ++ tail) 0 b
  = Some (length (format_link ankor target),
          [("target"%string, target); ("ankor"%string, ankor)]).
Proof.
  intros Ha Ht Ht' Hp Hp' Hp'' He.
  rewrite format_link_line, format_link_length.
  unfold try_match, link_regex. cbn [run atom_ok].
  rewrite Ascii.eqb_refl.
  replace ("]"%char :: "("%char :: target ++ ")"%char :: post ++ tail)
    with (("]"%char :: "("%char :: target ++ ")"%char :: post) ++ tail)
    by (cbn [app]; now rewrite <- app_assoc).
  apply star_greedy_line with (x := "]"%char); trivial.
  - intros [|c t] p cs' Hc; [reflexivity|].
    destruct (Ascii.eqb_spec "]"%char c); [subst; congruence|reflexivity].
  - unfold lacks. cbn [tl forallb]. rewrite forallb_app. cbn [forallb].
    unfold lacks in Ht', Hp'. now rewrite Ht', Hp'.
  - now apply line_end_stops.
  - apply line_end_not; [discriminate|exact He].
  - cbn [app]. rewrite !Ascii.eqb_refl.
    replace ((target ++ ")"%char :: post) ++ tail)
      with (target ++ (")"%char :: post) ++ tail)
      by (cbn [app]; now rewrite <- app_assoc).
    apply star_greedy_line with (x := ")"%char); trivial.
    + intros [|c t] p cs' Hc; [reflexivity|].
      destruct (Ascii.eqb_spec ")"%char c); [subst; congruence|reflexivity].
    + now apply line_end_stops.
    + apply line_end_not; [discriminate|exact He].
    + cbn [app]. rewrite Ascii.eqb_refl. cbn [Nat.eqb].
      rewrite andb_false_r, !firstn_prefix by lia.
      f_equal.
Qed.

(** The match of [kubectl_link_regex] on a line that holds one link. *)
Lemma kubectl_try_line (ankor target post tail : str) (b : bool) :
  no_newline ankor -> no_newline target -> lacks "]" target ->
  lacks ")" target -> no_newline post -> lacks "]" post -> line_end tail ->
  try_match kubectl_link_regex (format_link ankor target ++ post ++ tail) 0 b
  = Some (length (format_link ankor target),
          [("target"%string, target); ("ankor"%string, ankor)]).
Proof.
  intros Ha Ht Ht' Ht'' Hp Hp' He.
  rewrite format_link_line, format_link_length.
  unfold try_match, kubectl_link_regex. cbn [run atom_ok].
  rewrite Ascii.eqb_refl.
  replace ("]"%char :: "("%char :: target ++ ")"%char :: post ++ tail)
    with (("]"%char :: "("%char :: target ++ ")"%char :: post) ++ tail)
    by (cbn [app]; now rewrite <- app_assoc).
  apply star_greedy_line with (x := "]"%char); trivial.
  - intros [|c t] p cs' Hc; [reflexivity|].
    destruct (Ascii.eqb_spec "]"%char c); [subst; congruence|reflexivity].
  - unfold lacks. cbn [tl forallb]. rewrite forallb_app. cbn [forallb].
    unfold lacks in Ht', Hp'. now rewrite Ht', Hp'.
  - now apply line_end_stops.
  - apply line_end_not; [discriminate|exact He].
  - cbn [app]. rewrite !Ascii.eqb_refl.
    replace ((target ++ ")"%char :: post) ++ tail)
      with (target ++ ")"%char :: post ++ tail)
      by (now rewrite <- app_assoc).
    rewrite star_lazy_split; trivial.
    + apply star_lazy_here. rewrite Ascii.eqb_refl. cbn [Nat.eqb].
      rewrite andb_false_r, !firstn_prefix by lia.
      f_equal.
    + intros z1 z2 -> Hn. destruct z2 as [|c z2]; [congruence|].
      cbn [app].
      destruct (Ascii.eqb_spec ")"%char c) as [<-|]; [|reflexivity].
      exfalso. apply (lacks_in _ _ ")"%char Ht''); trivial.
      apply in_or_app. right. now left.
Qed.

(** The pieces of a line that holds one link, for a pattern that starts
    with an opening bracket. *)
Lemma scan_line (r : regex) (cs : caps) (pre ankor target post tail : str) :
  bol_free r = true ->
  (forall c t p, c <> "["%char -> try_match r (c :: t) p false = None) ->
  try_match r (format_link ankor target ++ post ++ tail) 0 false
  = Some (length (format_link ankor target), cs) ->
  lacks "[" pre -> lacks "[" post ->
  scan r (pre ++ format_link ankor target ++ post ++ tail) 0 0
  = map Ch pre
    ++ Mt (MatchObj (format_link ankor target) cs)
    :: map Ch post ++ scan r tail 0 0.
Proof.
  intros F Hnone Hline Hpre Hpost.
  rewrite scan_chars
    by (intros c t p Hc; apply Hnone; now apply (lacks_in _ _ _ Hpre)).
  f_equal. rewrite scan_shift by exact F.
  set (body := ankor ++ "]"%char :: "("%char :: target ++ [")"%char]).
  assert (Ef : format_link ankor target = "["%char :: body).
  { unfold format_link, body. cbn [lit list_ascii_of_string app].
    reflexivity. }
  rewrite Ef in *. cbn [app length] in *.
  rewrite (scan_match_cons _ _ _ _ _ _ Hline). f_equal.
  - unfold mk_match. cbn [fst snd].
    change ("["%char :: body ++ post ++ tail)
      with (("["%char :: body) ++ post ++ tail).
    now rewrite firstn_prefix by reflexivity.
  - rewrite scan_over, scan_shift by exact F.
    rewrite scan_chars
      by (intros c t p Hc; apply Hnone; now apply (lacks_in _ _ _ Hpost)).
    f_equal. now apply scan_shift.
Qed.

Lemma link_try_other (c : ascii) (t : str) (p : nat) :
  c <> "["%char -> try_match link_regex (c :: t) p false = None.
Proof.
  intros H. unfold try_match, link_regex. cbn [run atom_ok].
  destruct (Ascii.eqb_spec "["%char c); [congruence|reflexivity].
Qed.

Lemma kubectl_try_other (c : ascii) (t : str) (p : nat) :
  c <> "["%char -> try_match kubectl_link_regex (c :: t) p false = None.
Proof.
  intros H. unfold try_match, kubectl_link_regex. cbn [run atom_ok].
  destruct (Ascii.eqb_spec "["%char c); [congruence|reflexivity].
Qed.

Lemma scan_line_end (r : regex) (tail : str) :
  bol_free r = true ->
  (forall c t p, c <> "["%char -> try_match r (c :: t) p false = None) ->
  try_match r [] 0 false = None ->
  line_end tail ->
  scan r tail 0 0
  = match tail with [] => [] | c :: rest => Ch c :: scan r rest 0 0 end.
Proof.
  intros F Hnone Hnil He. destruct tail as [|c rest].
  - now apply scan_nomatch_nil.
  - simpl in He. subst c.
    rewrite scan_nomatch_cons by (apply Hnone; discriminate).
    f_equal. now apply scan_shift.
Qed.

End LinkFacts.

(** ** The rewriting of relative links *)

Lemma analyze_absolute_url (remote_prefix sub_path text ankor target : str) :
  analyze remote_prefix sub_path
    (Re.MatchObj text [("target"%string, target); ("ankor"%string, ankor)])
  = format_link ankor (absolute_url remote_prefix sub_path target).
Proof.
  unfold analyze, absolute_url, Re.group. cbn [Re.lookup Re.m_groups String.eqb].
  cbn [Ascii.eqb Bool.eqb].
  destruct (Py.startswith target (lit "https://")); [reflexivity|].
  destruct (Py.startswith target (lit "mailto:")); [reflexivity|].
  destruct (Py.startswith target (lit "#")); [reflexivity|].
  destruct (Py.startswith target (lit "/")); reflexivity.
Qed.

Lemma sub_link_next_line (repl : Re.match_obj -> str) (rest : str) :
  Re.sub link_regex repl (nl :: rest) = nl :: Re.sub link_regex repl rest.
Proof.
  unfold Re.sub.
  rewrite LinkFacts.scan_line_end; trivial; try reflexivity.
  apply LinkFacts.link_try_other.
Qed.

Lemma lacks_tail (x : ascii) (s : str) : lacks x s -> lacks x (skipn 1 s).
Proof.
  destruct s as [|c t]; [trivial|]. unfold lacks. cbn [forallb skipn].
  intros H. now apply andb_true_iff in H as [_ H].
Qed.

Lemma absolute_url_lacks (x : ascii) (remote_prefix sub_path url : str) :
  lacks x (lit "/") -> lacks x remote_prefix -> lacks x sub_path ->
  lacks x url -> lacks x (absolute_url remote_prefix sub_path url).
Proof.
  intros Hs Hr Hp Hu. unfold absolute_url.
  repeat match goal with
         | |- lacks _ (if ?b then _ else _) => destruct b
         end; trivial;
    repeat apply LinkFacts.lacks_app; trivial.
  now apply lacks_tail.
Qed.

(** The link rewriting on a text of one line that holds one match. *)
Lemma sub_link_line (pre text url post remote_prefix sub_path : str) :
  lacks "[" pre -> no_newline text -> no_newline url -> lacks "]" url ->
  no_newline post -> lacks "[" post -> lacks "]" post -> lacks ")" post ->
  Re.sub link_regex (analyze remote_prefix sub_path)
    (pre ++ format_link text url ++ post)
  = pre ++ format_link text (absolute_url remote_prefix sub_path url) ++ post.
Proof.
  intros Hpre Ht Hu Hu1 Hp Hp1 Hp2 Hp3.
  rewrite <- (app_nil_r post) at 1. unfold Re.sub.
  rewrite LinkFacts.scan_line
    with (cs := [("target"%string, url); ("ankor"%string, text)]); trivial.
  - rewrite ScanFacts.render_app, ScanFacts.render_chars. f_equal.
    rewrite ScanFacts.render_match, analyze_absolute_url. f_equal.
    rewrite ScanFacts.render_app, ScanFacts.render_chars.
    change (Re.scan link_regex [] 0 0) with (@nil Re.piece).
    cbn [Re.render flat_map]. now rewrite !app_nil_r.
  - apply LinkFacts.link_try_other.
  - now apply LinkFacts.link_try_line.
Qed.

(** On a line that holds one link (no bracket
    outside it, no closing bracket in its URL, no closing parenthesis after
    it) the URL is left alone when it starts with https://, mailto: or a hash
    sign, is put under the remote prefix without its leading slash when it
    starts with a slash, and is put under the remote prefix and the
    directory of the page otherwise; the text before the link, after it and
    the link text stay, and the lines that follow are rewritten in turn. *)
Lemma process_links_one_link_line
  (pre text url post tail remote_prefix sub_path : str) :
  lacks "[" pre -> no_newline text -> no_newline url -> lacks "]" url ->
  no_newline post -> lacks "[" post -> lacks "]" post -> lacks ")" post ->
  line_end tail ->
  process_links (pre ++ format_link text url ++ post ++ tail)
    remote_prefix sub_path
  = Re.sub h1_regex (fun _ => [])
      (pre ++ format_link text (absolute_url remote_prefix sub_path url)
           ++ post ++ Re.sub link_regex (analyze remote_prefix sub_path) tail).
Proof.
  intros Hpre Ht Hu Hu' Hp Hp1 Hp2 Hp3 He.
  unfold process_links. f_equal. unfold Re.sub.
  rewrite LinkFacts.scan_line
    with (cs := [("target"%string, url); ("ankor"%string, text)]); trivial.
  - rewrite ScanFacts.render_app, ScanFacts.render_chars. f_equal.
    rewrite ScanFacts.render_match, analyze_absolute_url. f_equal.
    now rewrite ScanFacts.render_app, ScanFacts.render_chars.
  - apply LinkFacts.link_try_other.
  - now apply LinkFacts.link_try_line.
Qed.

Example process_links_one_link_line_example :
  process_links (lit "See [text](relative/path.md) here.")
    (lit "github.com/org/repo/tree/master") (lit "docs")
  = lit "See [text](github.com/org/repo/tree/master/docs/relative/path.md) here.".
Proof.
  exact (process_links_one_link_line
           (lit "See ") (lit "text") (lit "relative/path.md") (lit " here.") []
           (lit "github.com/org/repo/tree/master") (lit "docs")
           eq_refl eq_refl eq_refl eq_refl eq_refl eq_refl eq_refl eq_refl I).
Defined.

(** The examples of the specification. *)
Example process_links_examples :
  let remote_prefix := lit "github.com/org/repo/tree/master" in
  process_links (lit "[text](relative/path.md)") remote_prefix (lit "docs")
  = lit "[text](github.com/org/repo/tree/master/docs/relative/path.md)"
  /\ process_links (lit "[text](/abs/path.md)") remote_prefix (lit "docs")
     = lit "[text](github.com/org/repo/tree/master/abs/path.md)"
  /\ process_links (lit "[text](https://example.com)") remote_prefix (lit "docs")
     = lit "[text](https://example.com)"
  /\ process_links (lit "[text](#anchor)") remote_prefix (lit "docs")
     = lit "[text](#anchor)"
  /\ process_links (lit "[text](mailto:a@b.com)") remote_prefix (lit "docs")
     = lit "[text](mailto:a@b.com)".
Proof. repeat split. Qed.

(** C2: [process_links] does not rewrite every link.  On a line with two
    links the pattern matches once, from the first opening bracket to the
    last closing parenthesis: the first link ends up inside the text of the
    match and keeps its URL, and only the URL of the second link is put
    under the remote prefix.  The result differs from the text the claim
    asks for whenever the first URL is one that has to be rewritten. *)
Theorem process_links_rewrites_last_link_only
  (pre text1 url1 mid text2 url2 post remote_prefix sub_path : str) :
  no_newline pre -> lacks "[" pre ->
  no_newline text1 -> no_newline url1 -> no_newline mid ->
  no_newline text2 -> no_newline url2 -> lacks "]" url2 ->
  no_newline post -> lacks "[" post -> lacks "]" post -> lacks ")" post ->
  no_newline remote_prefix -> no_newline sub_path ->
  let content :=
    pre ++ format_link text1 url1 ++ mid ++ format_link text2 url2 ++ post in
  let claimed :=
    pre ++ format_link text1 (absolute_url remote_prefix sub_path url1)
        ++ mid
        ++ format_link text2 (absolute_url remote_prefix sub_path url2)
        ++ post in
  process_links content remote_prefix sub_path
  = pre ++ format_link text1 url1 ++ mid
        ++ format_link text2 (absolute_url remote_prefix sub_path url2)
        ++ post
  /\ (absolute_url remote_prefix sub_path url1 <> url1 ->
      process_links content remote_prefix sub_path <> claimed).
Proof.
  intros Hpre Hpre1 Ht1 Hu1 Hmid Ht2 Hu2 Hu2' Hp Hp1 Hp2 Hp3 Hr Hs
         content claimed.
  set (text := text1 ++ lit "](" ++ url1 ++ lit ")" ++ mid ++ lit "["
               ++ text2).
  assert (Ht : no_newline text)
    by (unfold text; repeat apply LinkFacts.lacks_app; trivial; reflexivity).
  assert (Ef : forall url,
    format_link text1 url1 ++ mid ++ format_link text2 url ++ post
    = format_link text url ++ post).
  { intros url. unfold text, format_link.
    repeat (rewrite <- app_assoc; cbn [app lit list_ascii_of_string]).
    reflexivity. }
  assert (Hn : no_newline (absolute_url remote_prefix sub_path url2))
    by (apply absolute_url_lacks; trivial; reflexivity).
  assert (E : process_links content remote_prefix sub_path
    = pre ++ format_link text1 url1 ++ mid
          ++ format_link text2 (absolute_url remote_prefix sub_path url2)
          ++ post).
  { unfold process_links, content. rewrite Ef, sub_link_line by assumption.
    rewrite <- Ef. apply strip_single_line.
    unfold format_link.
    repeat apply LinkFacts.lacks_app; trivial; reflexivity. }
  split; [exact E|].
  intros Hne Heq. rewrite E in Heq. unfold claimed in Heq.
  apply app_inv_head in Heq. unfold format_link in Heq.
  rewrite <- !app_assoc in Heq.
  do 3 apply app_inv_head in Heq.
  match type of Heq with
  | url1 ++ ?x = _ ++ ?y => change y with x in Heq
  end.
  apply app_inv_tail in Heq. now symmetry in Heq.
Qed.

Lemma process_links_rewrites_last_link_only_witness :
  process_links (lit "[a](x) [b](y)") (lit "rp") (lit "sp")
  = lit "[a](x) [b](rp/sp/y)"
  /\ process_links (lit "[a](x) [b](y)") (lit "rp") (lit "sp")
     <> lit "[a](rp/sp/x) [b](rp/sp/y)".
Proof.
  pose proof (process_links_rewrites_last_link_only
    [] (lit "a") (lit "x") (lit " ") (lit "b") (lit "y") []
    (lit "rp") (lit "sp")
    eq_refl eq_refl eq_refl eq_refl eq_refl eq_refl eq_refl eq_refl
    eq_refl eq_refl eq_refl eq_refl eq_refl eq_refl) as [H1 H2].
  split; [exact H1|]. apply H2. discriminate.
Defined.

(** C10: the text and the URL of [link_regex] are greedy, so on the line
    with the two links [a](x) and [b](y) there is one match, from the first
    opening bracket to the last closing parenthesis; its text holds the whole
    first link, only the URL y is rewritten, and x stays as it was. *)
Theorem process_links_greedy_on_two_links (remote_prefix sub_path : str) :
  Re.scan link_regex (lit "[a](x) [b](y)") 0 0
  = [Re.Mt (Re.MatchObj (lit "[a](x) [b](y)")
              [("target"%string, lit "y"); ("ankor"%string, lit "a](x) [b")])]
  /\ process_links (lit "[a](x) [b](y)") remote_prefix sub_path
     = lit "[a](x) [b](" ++ remote_prefix ++ lit "/" ++ sub_path ++ lit "/y)".
Proof.
  assert (E : Re.scan link_regex (lit "[a](x) [b](y)") 0 0
    = [Re.Mt (Re.MatchObj (lit "[a](x) [b](y)")
              [("target"%string, lit "y"); ("ankor"%string, lit "a](x) [b")])])
    by reflexivity.
  split; [exact E|].
  unfold process_links, Re.sub at 2. rewrite E.
  rewrite ScanFacts.render_match, analyze_absolute_url.
  cbn [Re.render flat_map]. rewrite app_nil_r.
  rewrite HeadingFacts.strip_other by reflexivity.
  unfold format_link, absolute_url. cbn.
  repeat (rewrite <- app_assoc; cbn [app]). reflexivity.
Qed.

(** ** The links of the kubectl page *)

Module KubectlFacts.

Import Re ReFacts ScanFacts LinkFacts.

Lemma rbind_ok {A : Type} (r : result A) : rbind r (fun a => Ok a) = r.
Proof. now destruct r. Qed.

Lemma rbind_rbind_ok (r : result str) (f g : str -> str) :
  rbind (rbind r (fun out => Ok (f out))) (fun out => Ok (g out))
  = rbind r (fun out => Ok (g (f out))).
Proof. now destruct r. Qed.

Lemma sub_pieces_chars repl (l : str) ps :
  sub_pieces repl (map Ch l ++ ps)
  = rbind (sub_pieces repl ps) (fun out => Ok (l ++ out)).
Proof.
  induction l as [|c l IH]; cbn [map app sub_pieces].
  - now rewrite rbind_ok.
  - rewrite IH. now destruct (sub_pieces repl ps).
Qed.

Lemma sub_pieces_unchanged repl ps :
  (forall m, In (Mt m) ps -> repl m = Ok (m_text m)) ->
  sub_pieces repl ps = Ok (render m_text ps).
Proof.
  induction ps as [|p ps IH]; intros H; [reflexivity|].
  assert (E : sub_pieces repl ps = Ok (render m_text ps))
    by (apply IH; intros; apply H; now right).
  destruct p as [c|m]; cbn [sub_pieces]; rewrite E; [reflexivity|].
  rewrite (H m) by now left. reflexivity.
Qed.

Lemma split_from_none (sep : str) :
  forall s cur,
    occurs sep s = false -> Py.split_from sep s 0 cur = [rev cur ++ s].
Proof.
  induction s as [|c t IH]; intros cur H; cbn [Py.split_from].
  - now rewrite app_nil_r.
  - cbn [occurs] in H. apply orb_false_iff in H as [H1 H2].
    rewrite H1, IH by exact H2. cbn [rev]. now rewrite <- app_assoc.
Qed.

Lemma split_kubectl (sub_cmd : str) :
  occurs (lit "kubectl ") sub_cmd = false ->
  Py.split (lit "kubectl " ++ sub_cmd) (lit "kubectl ") = [[]; sub_cmd].
Proof.
  intros H. unfold Py.split. cbn. f_equal.
  now rewrite split_from_none.
Qed.

Lemma kubectl_analyze_other (text ankor target : str) :
  kubectl_page target = false ->
  kubectl_analyze
    (MatchObj text [("target"%string, target); ("ankor"%string, ankor)])
  = Ok (format_link ankor target).
Proof.
  intros H. unfold kubectl_analyze, group.
  cbn [lookup m_groups String.eqb Ascii.eqb Bool.eqb].
  unfold kubectl_page in H. now rewrite H.
Qed.

Lemma kubectl_analyze_command (text target sub_cmd : str) :
  kubectl_page target = true ->
  occurs (lit "kubectl ") sub_cmd = false ->
  kubectl_analyze
    (MatchObj text [("target"%string, target);
                    ("ankor"%string, lit "kubectl " ++ sub_cmd)])
  = Ok (format_link (lit "kubectl " ++ sub_cmd)
          (kubectl_commands ++ lit "#" ++ sub_cmd)).
Proof.
  intros H Hs. unfold kubectl_analyze, group.
  cbn [lookup m_groups String.eqb Ascii.eqb Bool.eqb].
  unfold kubectl_page in H. rewrite H, split_kubectl by exact Hs.
  reflexivity.
Qed.

Lemma kubectl_analyze_split (text ankor target sub_cmd : str) :
  kubectl_page target = true ->
  nth_error (Py.split ankor (lit "kubectl ")) 1 = Some sub_cmd ->
  kubectl_analyze
    (MatchObj text [("target"%string, target); ("ankor"%string, ankor)])
  = Ok (format_link ankor (kubectl_commands ++ lit "#" ++ sub_cmd)).
Proof.
  intros H Hs. unfold kubectl_analyze, group.
  cbn [lookup m_groups String.eqb Ascii.eqb Bool.eqb].
  unfold kubectl_page in H. now rewrite H, Hs.
Qed.

Lemma kubectl_analyze_raises (text ankor target : str) :
  kubectl_page target = true ->
  occurs (lit "kubectl ") ankor = false ->
  kubectl_analyze
    (MatchObj text [("target"%string, target); ("ankor"%string, ankor)])
  = Raise IndexError.
Proof.
  intros H Hs. unfold kubectl_analyze, group.
  cbn [lookup m_groups String.eqb Ascii.eqb Bool.eqb].
  unfold kubectl_page in H. rewrite H. unfold Py.split.
  now rewrite split_from_none.
Qed.

Lemma kubectl_line (pre text url post tail : str) :
  lacks "[" pre -> no_newline text -> no_newline url -> lacks "]" url ->
  lacks ")" url -> no_newline post -> lacks "[" post -> lacks "]" post ->
  line_end tail ->
  process_kubectl_links (pre ++ format_link text url ++ post ++ tail)
  = rbind (kubectl_analyze
             (MatchObj (format_link text url)
                [("target"%string, url); ("ankor"%string, text)]))
      (fun link =>
         rbind (process_kubectl_links tail)
           (fun out => Ok (pre ++ link ++ post ++ out))).
Proof.
  intros Hpre Ht Hu Hu1 Hu2 Hp Hp1 Hp2 He.
  unfold process_kubectl_links, re_sub_raising.
  rewrite scan_line
    with (cs := [("target"%string, url); ("ankor"%string, text)]); trivial.
  - rewrite sub_pieces_chars. cbn [sub_pieces].
    destruct (kubectl_analyze _) as [link|e]; [|reflexivity].
    cbn [rbind]. rewrite sub_pieces_chars.
    destruct (sub_pieces kubectl_analyze (scan kubectl_link_regex tail 0 0));
      reflexivity.
  - apply kubectl_try_other.
  - now apply kubectl_try_line.
Qed.

Lemma kubectl_next_line (rest : str) :
  process_kubectl_links (nl :: rest)
  = rbind (process_kubectl_links rest) (fun out => Ok (nl :: out)).
Proof.
  unfold process_kubectl_links, re_sub_raising.
  rewrite scan_line_end; trivial; try reflexivity.
  apply kubectl_try_other.
Qed.

End KubectlFacts.

(** C1, as the code has it: on a line that holds one link (no bracket
    outside it, no closing bracket or parenthesis in its URL) a link whose
    URL does not both end in .md and begin with kubectl is left as it is,
    whatever its text; a link whose URL does is rewritten to the anchor, on
    the page of the kubectl commands, named by the second piece of the link
    text split at kubectl and a space, which for a text that is kubectl, a
    space and a subcommand without a further such prefix is the subcommand.
    The lines that follow are rewritten in turn. *)
Theorem process_kubectl_links_one_link_line (pre text url post tail : str) :
  lacks "[" pre -> no_newline text -> no_newline url -> lacks "]" url ->
  lacks ")" url -> no_newline post -> lacks "[" post -> lacks "]" post ->
  line_end tail ->
  (kubectl_page url = false ->
   process_kubectl_links (pre ++ format_link text url ++ post ++ tail)
   = rbind (process_kubectl_links tail)
       (fun out => Ok (pre ++ format_link text url ++ post ++ out)))
  /\ (forall sub_cmd,
         kubectl_page url = true ->
         nth_error (Py.split text (lit "kubectl ")) 1 = Some sub_cmd ->
         process_kubectl_links (pre ++ format_link text url ++ post ++ tail)
         = rbind (process_kubectl_links tail)
             (fun out =>
                Ok (pre ++ format_link text
                             (kubectl_commands ++ lit "#" ++ sub_cmd)
                        ++ post ++ out)))
  /\ (forall sub_cmd,
         text = lit "kubectl " ++ sub_cmd ->
         occurs (lit "kubectl ") sub_cmd = false ->
         nth_error (Py.split text (lit "kubectl ")) 1 = Some sub_cmd).
Proof.
  intros Hpre Ht Hu Hu1 Hu2 Hp Hp1 Hp2 He.
  rewrite KubectlFacts.kubectl_line by assumption.
  split; [|split].
  - intros H. now rewrite KubectlFacts.kubectl_analyze_other.
  - intros sub_cmd H Hs.
    now rewrite (KubectlFacts.kubectl_analyze_split _ _ _ sub_cmd).
  - intros sub_cmd -> Hs. now rewrite KubectlFacts.split_kubectl.
Qed.

Lemma process_kubectl_links_one_link_line_witness :
  process_kubectl_links
    (lit "* [kubectl annotate](kubectl_annotate.md)  - Update the annotations")
  = Ok (lit "* [kubectl annotate](/docs/reference/generated/kubectl/kubectl-commands#annotate)  - Update the annotations")
  /\ process_kubectl_links (lit "See [the guide](guide.md) first.")
     = Ok (lit "See [the guide](guide.md) first.").
Proof.
  split.
  - exact (proj1 (proj2 (process_kubectl_links_one_link_line
             (lit "* ") (lit "kubectl annotate") (lit "kubectl_annotate.md")
             (lit "  - Update the annotations") []
             eq_refl eq_refl eq_refl eq_refl eq_refl eq_refl eq_refl eq_refl I))
           (lit "annotate") eq_refl
           (proj2 (proj2 (process_kubectl_links_one_link_line
             (lit "* ") (lit "kubectl annotate") (lit "kubectl_annotate.md")
             (lit "  - Update the annotations") []
             eq_refl eq_refl eq_refl eq_refl eq_refl eq_refl eq_refl eq_refl I))
             (lit "annotate") eq_refl eq_refl)).
  - exact (proj1 (process_kubectl_links_one_link_line
             (lit "See ") (lit "the guide") (lit "guide.md")
             (lit " first.") []
             eq_refl eq_refl eq_refl eq_refl eq_refl eq_refl eq_refl eq_refl I)
           eq_refl).
Defined.

(** The example of the specification, and what the code does with a link
    whose URL is a kubectl page and whose text holds no kubectl prefix: the
    index 1 of the split text does not exist. *)
Example process_kubectl_links_examples :
  process_kubectl_links (lit "[kubectl annotate](kubectl_annotate.md)")
  = Ok (lit "[kubectl annotate](/docs/reference/generated/kubectl/kubectl-commands#annotate)")
  /\ process_kubectl_links (lit "[foo](kubectl_foo.md)") = Raise IndexError.
Proof. split; reflexivity. Qed.

(** C1, as it is stated, fails on a link whose text holds the kubectl
    prefix but does not start with it: the claim asks for the link to be
    left as it is, the code rewrites its URL. *)
Lemma process_kubectl_links_text_counterexample :
  let content := lit "[see kubectl annotate](kubectl_annotate.md)" in
  Py.startswith (lit "see kubectl annotate") (lit "kubectl ") = false
  /\ process_kubectl_links content
     = Ok (lit "[see kubectl annotate](/docs/reference/generated/kubectl/kubectl-commands#annotate)")
  /\ process_kubectl_links content <> Ok content.
Proof.
  repeat split. discriminate.
Qed.

(** ** A second pass *)

Module SecondPass.

Import Re ScanFacts LinkFacts KubectlFacts.

Lemma absolute_url_already (remote_prefix sub_path url : str) :
  already_absolute url = true ->
  absolute_url remote_prefix sub_path url = url.
Proof.
  unfold already_absolute, absolute_url. intros H.
  destruct (Py.startswith url (lit "https://")); [reflexivity|].
  destruct (Py.startswith url (lit "mailto:")); [reflexivity|].
  destruct (Py.startswith url (lit "#")); [reflexivity|discriminate].
Qed.

Lemma link_matches (m : match_obj) (content : str) :
  In (Mt m) (scan link_regex content 0 0) ->
  exists ankor target,
    m = MatchObj (format_link ankor target)
          [("target"%string, target); ("ankor"%string, ankor)].
Proof.
  intros H. apply scan_matches in H as (l & pos & b & [n cs] & H & ->).
  apply link_match_shape in H
    as (ankor & target & rest & -> & -> & -> & _ & _).
  exists ankor, target. unfold mk_match. cbn [fst snd].
  now rewrite firstn_prefix by reflexivity.
Qed.

Lemma kubectl_matches (m : match_obj) (content : str) :
  In (Mt m) (scan kubectl_link_regex content 0 0) ->
  exists ankor target,
    m = MatchObj (format_link ankor target)
          [("target"%string, target); ("ankor"%string, ankor)].
Proof.
  intros H. apply scan_matches in H as (l & pos & b & [n cs] & H & ->).
  apply kubectl_match_shape in H
    as (ankor & target & rest & -> & -> & -> & _ & _).
  exists ankor, target. unfold mk_match. cbn [fst snd].
  now rewrite firstn_prefix by reflexivity.
Qed.

Lemma kubectl_commands_not_page (sub_cmd : str) :
  kubectl_page (kubectl_commands ++ lit "#" ++ sub_cmd) = false.
Proof. unfold kubectl_page. cbn. apply andb_false_r. Qed.

End SecondPass.

(** Each rewriter returns its input when nothing in it calls for
    a rewrite.  A text in which every link the pattern finds has a URL that
    starts with https://, mailto: or a hash sign, and which starts with
    neither a heading line nor an empty line, is returned as it is by
    [process_links]; a text in which no link the pattern finds has a URL
    that ends in .md and begins with kubectl is returned as it is by
    [process_kubectl_links]; and the result of [process_kubectl_links] on a
    text of one line and one link (without brackets or parentheses in the
    subcommand) is returned as it is by a second pass. *)
Lemma rewriters_leave_rewritten_text
  (content remote_prefix sub_path : str) :
  ((forall m, In (Re.Mt m) (Re.scan link_regex content 0 0) ->
              already_absolute (Re.group m "target") = true) ->
   Py.startswith content [nl] = false ->
   Py.startswith content (lit "# ") = false ->
   process_links content remote_prefix sub_path = content)
  /\ ((forall m, In (Re.Mt m) (Re.scan kubectl_link_regex content 0 0) ->
                 kubectl_page (Re.group m "target") = false) ->
      process_kubectl_links content = Ok content)
  /\ (forall pre sub_cmd url post,
         content = pre ++ format_link (lit "kubectl " ++ sub_cmd) url ++ post ->
         lacks "[" pre -> no_newline sub_cmd -> lacks "]" sub_cmd ->
         lacks ")" sub_cmd -> occurs (lit "kubectl ") sub_cmd = false ->
         no_newline url -> lacks "]" url -> lacks ")" url ->
         kubectl_page url = true ->
         no_newline post -> lacks "[" post -> lacks "]" post ->
         exists out,
           process_kubectl_links content = Ok out
           /\ process_kubectl_links out = Ok out).
Proof.
  split; [|split].
  - intros Hm Hn Hh. unfold process_links.
    rewrite (ScanFacts.sub_unchanged link_regex).
    + now apply HeadingFacts.strip_other.
    + intros m Hin. pose proof (Hm m Hin) as Ha.
      destruct (SecondPass.link_matches m content Hin)
        as (ankor & target & ->).
      rewrite analyze_absolute_url.
      now rewrite SecondPass.absolute_url_already.
  - intros Hm. unfold process_kubectl_links, re_sub_raising.
    rewrite KubectlFacts.sub_pieces_unchanged.
    + now rewrite ScanFacts.scan_text.
    + intros m Hin. pose proof (Hm m Hin) as Ha.
      destruct (SecondPass.kubectl_matches m content Hin)
        as (ankor & target & ->).
      now rewrite KubectlFacts.kubectl_analyze_other.
  - intros pre sub_cmd url post -> Hpre Hs Hs1 Hs2 Hs3 Hu Hu1 Hu2 Hk Hp Hp1 Hp2.
    assert (Ht : no_newline (lit "kubectl " ++ sub_cmd))
      by (apply LinkFacts.lacks_app; [reflexivity|exact Hs]).
    exists (pre ++ format_link (lit "kubectl " ++ sub_cmd)
                     (kubectl_commands ++ lit "#" ++ sub_cmd) ++ post).
    split.
    + rewrite <- (app_nil_r post) at 1.
      rewrite (KubectlFacts.kubectl_line
                 pre (lit "kubectl " ++ sub_cmd) url post []
                 Hpre Ht Hu Hu1 Hu2 Hp Hp1 Hp2 I).
      rewrite KubectlFacts.kubectl_analyze_command by assumption.
      cbn. now rewrite app_nil_r.
    + rewrite <- (app_nil_r post) at 1.
      rewrite (KubectlFacts.kubectl_line
                 pre (lit "kubectl " ++ sub_cmd)
                 (kubectl_commands ++ lit "#" ++ sub_cmd) post []
                 Hpre Ht).
      * rewrite KubectlFacts.kubectl_analyze_other
          by apply SecondPass.kubectl_commands_not_page.
        cbn. now rewrite app_nil_r.
      * apply LinkFacts.lacks_app; [reflexivity|exact Hs].
      * apply LinkFacts.lacks_app; [reflexivity|exact Hs1].
      * apply LinkFacts.lacks_app; [reflexivity|exact Hs2].
      * exact Hp.
      * exact Hp1.
      * exact Hp2.
      * exact I.
Qed.

Ltac each_match H :=
  vm_compute in H;
  repeat (destruct H as [H|H]; [try discriminate H|]);
  try contradiction.

Example rewriters_leave_rewritten_text_example :
  process_links (lit "See [the site](https://example.com) and [top](#top)")
    (lit "rp") (lit "sp")
  = lit "See [the site](https://example.com) and [top](#top)"
  /\ process_kubectl_links
       (lit "[kubectl annotate](/docs/reference/generated/kubectl/kubectl-commands#annotate)")
     = Ok (lit "[kubectl annotate](/docs/reference/generated/kubectl/kubectl-commands#annotate)")
  /\ exists out,
       process_kubectl_links (lit "* [kubectl get](kubectl_get.md) - Display")
       = Ok out
       /\ process_kubectl_links out = Ok out.
Proof.
  split; [|split].
  - apply (proj1 (rewriters_leave_rewritten_text
             (lit "See [the site](https://example.com) and [top](#top)")
             (lit "rp") (lit "sp"))); [|reflexivity|reflexivity].
    intros m H. each_match H. injection H as <-. reflexivity.
  - apply (proj1 (proj2 (rewriters_leave_rewritten_text
             (lit "[kubectl annotate](/docs/reference/generated/kubectl/kubectl-commands#annotate)")
             [] []))).
    intros m H. each_match H. injection H as <-. reflexivity.
  - apply (proj2 (proj2 (rewriters_leave_rewritten_text
             (lit "* [kubectl get](kubectl_get.md) - Display") [] []))
           (lit "* ") (lit "get") (lit "kubectl_get.md") (lit " - Display"));
      reflexivity.
Defined.

(** C8: [process_kubectl_links] does not leave its own output unchanged.
    On a line with two links to kubectl pages the text group of the pattern
    spans both links, so the first pass puts the first link inside the new
    URL of the second; in that output the pattern finds the link to the
    first page again, and the second pass rewrites it once more. *)
Theorem process_kubectl_links_second_pass_differs :
  let content :=
    lit "[kubectl a](kubectl_a.md) [kubectl b](kubectl_b.md)" in
  let out :=
    lit "[kubectl a](kubectl_a.md) [kubectl b](/docs/reference/generated/kubectl/kubectl-commands#a](kubectl_a.md) [)" in
  let out2 :=
    lit "[kubectl a](kubectl_a.md) [kubectl b](/docs/reference/generated/kubectl/kubectl-commands#a](/docs/reference/generated/kubectl/kubectl-commands#a](kubectl_a.md) [) [)" in
  process_kubectl_links content = Ok out
  /\ process_kubectl_links out = Ok out2
  /\ out2 <> out
  /\ Re.scan kubectl_link_regex content 0 0
     = [Re.Mt (Re.MatchObj content
                 [("target"%string, lit "kubectl_b.md");
                  ("ankor"%string,
                   lit "kubectl a](kubectl_a.md) [kubectl b")])].
Proof.
  repeat split. discriminate.
Qed.

(** ** Running the statements *)

Section TraceFacts.

Context {W : Type} {os : OS W}.

Lemma extends_ret {A : Type} (a : A) : extends (W:=W) (ret a).
Proof. intros st. exists []. cbn. now rewrite app_nil_r. Qed.

Lemma extends_raise {A : Type} (e : exn) : extends (W:=W) (raise (A:=A) e).
Proof. intros st. exists []. cbn. now rewrite app_nil_r. Qed.

Lemma extends_ask {A : Type} (f : W -> A) : extends (W:=W) (ask f).
Proof. intros st. exists []. cbn. now rewrite app_nil_r. Qed.

Lemma extends_set_world (w : W) : extends (W:=W) (set_world w).
Proof. intros st. exists []. cbn. now rewrite app_nil_r. Qed.

Lemma extends_emit (e : event) : extends (W:=W) (emit e).
Proof. intros st. now exists [e]. Qed.

Lemma extends_print (text : str) : extends (W:=W) (print text).
Proof. apply extends_emit. Qed.

Lemma extends_do_chdir (dir : str) : extends (W:=W) (do_chdir dir).
Proof. intros st. now exists [Chdir dir]. Qed.

Lemma extends_call (cmd : str) : extends (W:=W) (call cmd).
Proof.
  intros st. exists [Shell cmd]. unfold call.
  now destruct (subprocess_call cmd (fst st)).
Qed.

Lemma extends_bind {A B : Type} (c : @M W A) (f : A -> @M W B) :
  extends c -> (forall a, extends (f a)) -> extends (bind c f).
Proof.
  intros Hc Hf st. unfold bind.
  destruct (Hc st) as [r1 E1].
  destruct (c st) as [[a|e] st1]; cbn [snd] in E1.
  - destruct (Hf a st1) as [r2 E2]. exists (r1 ++ r2).
    now rewrite E2, E1, app_assoc.
  - exists r1. exact E1.
Qed.

Lemma extends_for_each {A : Type} (l : list A) (body : A -> @M W unit) :
  (forall x, extends (W:=W) (body x)) -> extends (W:=W) (for_each l body).
Proof.
  intros H. induction l as [|x l IH]; cbn [for_each].
  - apply extends_ret.
  - apply extends_bind; [apply H|intros _; exact IH].
Qed.

(** One statement at a time. *)
Lemma step_print {A : Type} (text : str) (k : @M W A) (st : @state W) :
  (print text ;; k) st = k (fst st, snd st ++ [Print text]).
Proof. reflexivity. Qed.

Lemma step_chdir {A : Type} (dir : str) (k : @M W A) (st : @state W) :
  (do_chdir dir ;; k) st = k (chdir dir (fst st), snd st ++ [Chdir dir]).
Proof. reflexivity. Qed.

Lemma step_ret {A B : Type} (a : A) (k : A -> @M W B) (st : @state W) :
  (x <- ret a ;; k x) st = k a st.
Proof. reflexivity. Qed.

Lemma step_ask {A B : Type} (f : W -> A) (k : A -> @M W B) (st : @state W) :
  (x <- ask f ;; k x) st = k (f (fst st)) st.
Proof. reflexivity. Qed.

Lemma step_call {A : Type} (cmd : str) (k : Z -> @M W A) (st : @state W) :
  (res <- call cmd ;; k res) st
  = k (fst (subprocess_call cmd (fst st)))
      (snd (subprocess_call cmd (fst st)), snd st ++ [Shell cmd]).
Proof.
  unfold bind, call. now destruct (subprocess_call cmd (fst st)).
Qed.

End TraceFacts.

Ltac extends_step :=
  first
    [ apply extends_ret | apply extends_raise | apply extends_ask
    | apply extends_set_world | apply extends_emit | apply extends_print
    | apply extends_do_chdir | apply extends_call
    | apply extends_bind; [|intros]
    | apply extends_for_each; intros
    | match goal with
      | |- extends (match ?x with _ => _ end) => destruct x
      | |- extends (if ?x then _ else _) => destruct x
      end ].

Lemma extends_process_match {W : Type} {os : OS W}
  (src dst_path repo_path : str) (gen : bool) :
  extends (process_match (W:=W) src dst_path repo_path gen).
Proof. unfold process_match. repeat extends_step. Qed.

Lemma extends_process_file {W : Type} {os : OS W}
  (src dst repo_path repo_dir root_dir : str) (gen : bool) :
  extends (process_file (W:=W) src dst repo_path repo_dir root_dir gen).
Proof.
  unfold process_file.
  apply extends_bind; [apply extends_ask|intros srcs].
  apply extends_for_each. intros x. apply extends_process_match.
Qed.

(** ** The remote of a repository *)

Module RemoteFacts.

Import Re ReFacts LinkFacts.

Lemma remote_try (prefix : str) :
  no_newline prefix ->
  try_match remote_regex (lit "https://" ++ prefix ++ lit ".git") 0 false
  = Some (12 + length prefix, [("prefix"%string, prefix)]).
Proof.
  intros H. unfold try_match, remote_regex. cbn [lit list_ascii_of_string app].
  cbn [run atom_ok Nat.eqb]. rewrite !Ascii.eqb_refl.
  change (prefix ++ [ "."; "g"; "i"; "t" ]%char)
    with (prefix ++ [ "."; "g"; "i"; "t" ]%char ++ []).
  apply star_greedy_line with (x := "."%char); trivial.
  - intros [|c t] p cs' Hc; [reflexivity|].
    destruct (Ascii.eqb_spec "."%char c); [subst; congruence|reflexivity].
  - reflexivity.
  - exact I.
  - cbn [app]. cbn. rewrite firstn_prefix by lia.
    reflexivity.
Qed.

Lemma remote_search (prefix : str) :
  no_newline prefix ->
  search remote_regex (lit "https://" ++ prefix ++ lit ".git")
  = Some (MatchObj (lit "https://" ++ prefix ++ lit ".git")
            [("prefix"%string, prefix)]).
Proof.
  intros H. unfold search.
  assert (E := remote_try prefix H).
  cbn [lit list_ascii_of_string app] in *.
  cbn [search_from]. rewrite E. unfold mk_match. cbn [fst snd].
  do 2 f_equal.
  apply firstn_all2. cbn [length]. rewrite length_app. cbn [length]. lia.
Qed.

Lemma src_join (prefix : str) :
  Py.startswith prefix (lit "/") = false ->
  PosixPath.join (lit "src") [prefix] = lit "src/" ++ prefix.
Proof.
  intros H. unfold PosixPath.join. cbn [fold_left].
  now rewrite PathFacts.join2_relative.
Qed.

Lemma src_join_absolute (prefix : str) :
  PosixPath.join (lit "src") [lit "/" ++ prefix] = lit "/" ++ prefix.
Proof. reflexivity. Qed.

End RemoteFacts.

(** When the remote matches the pattern and the
    prefix it captures does not start with a slash, the repository is cloned
    into src/ followed by the prefix (a remote that is https://, a prefix
    without newline and .git matches with that prefix); when the remote does
    not match, the error is printed, nothing is cloned and nothing else is
    done for the repository, the loop goes on with the next one, and a run
    whose only repository has such a remote ends with the exit status 0. *)
Lemma process_repo_remote {W : Type} {os : OS W}
  (k8s_release root_dir work_dir : str) (repo : repo)
  (repo_name repo_remote : str) :
  r_name repo = Some repo_name -> r_remote repo = Some repo_remote ->
  (forall m branch st,
      Re.search remote_regex repo_remote = Some m ->
      Py.startswith (Re.group m "prefix") (lit "/") = false ->
      r_branch repo = Some branch ->
      exists rest,
        snd (snd (process_repo k8s_release root_dir work_dir repo st))
        = snd st
          ++ [Chdir work_dir; Print (lit "Cloning repo " ++ repo_name);
              Shell (lit "git clone --depth=1 -b " ++ branch ++ lit " "
                     ++ repo_remote ++ lit " " ++ lit "src/"
                     ++ Re.group m "prefix")]
          ++ rest)
  /\ (forall prefix,
         repo_remote = lit "https://" ++ prefix ++ lit ".git" ->
         no_newline prefix ->
         exists m,
           Re.search remote_regex repo_remote = Some m
           /\ Re.group m "prefix" = prefix)
  /\ (Re.search remote_regex repo_remote = None ->
      (forall st,
          process_repo k8s_release root_dir work_dir repo st
          = (Ok tt,
             (fst st,
              snd st ++ [Print (lit "[Error] repo path for " ++ repo_name
                                ++ lit " is invalid")])))
      /\ (forall others st,
             for_each (repo :: others)
               (process_repo k8s_release root_dir work_dir) st
             = for_each others (process_repo k8s_release root_dir work_dir)
                 (fst st,
                  snd st ++ [Print (lit "[Error] repo path for " ++ repo_name
                                    ++ lit " is invalid")]))
      /\ (forall (w w2 : W) config_file release temp_dir,
             parse_args w = Some (config_file, release) ->
             yaml_full_load config_file w = inr (Config (Some [repo])) ->
             let curr_dir := PosixPath.dirname (script_abspath w) in
             let web_root := realpath (PosixPath.join curr_dir [lit ".."]) w in
             let w1 := chdir web_root w in
             mkdtemp (if Py.str_eqb (platform_system w1) (lit "Darwin")
                      then lit "/tmp" else gettempdir w1) w1
             = inr (temp_dir, w2) ->
             main [] (w, [])
             = (Ok None,
                (w2,
                 [Print (lit "config_file is " ++ config_file);
                  Print (lit "k8s_release is " ++ release)]
                 ++ (if length release =? 4
                     then [Print (lit "k8s_release updated to "
                                  ++ normalize_release release)]
                     else [])
                 ++ [Print (lit "curr_dir " ++ curr_dir);
                     Print (lit "root_dir " ++ web_root);
                     Chdir web_root;
                     Print (lit "Making temp work_dir");
                     Print (lit "Working dir " ++ temp_dir);
                     Print (lit "[Error] repo path for " ++ repo_name
                            ++ lit " is invalid");
                     Print (completed_msg temp_dir)]))
             /\ exit_status (fst (main [] (w, []))) = 0%Z)).
Proof.
  intros Hname Hremote. split; [|split].
  - intros m branch st Hm Hs Hb.
    unfold process_repo. rewrite Hname, Hremote, Hb, Hm.
    rewrite RemoteFacts.src_join by exact Hs.
    rewrite step_chdir, step_print, step_ret, step_call.
    match goal with
    | |- context [ (if ?c then ?a else ?b) ?s ] =>
        assert (E : extends (if c then a else b))
    end.
    { repeat first [apply extends_process_file | extends_step]. }
    match goal with
    | |- context [ (if ?c then ?a else ?b) ?s ] =>
        destruct (E s) as [rest Hrest]; exists rest; rewrite Hrest
    end.
    cbn [snd]. rewrite <- !app_assoc. reflexivity.
  - intros prefix -> Hp. eexists. split.
    + now apply RemoteFacts.remote_search.
    + reflexivity.
  - intros Hsearch.
    assert (Hone : forall release web_root temp_dir st,
      process_repo release web_root temp_dir repo st
      = (Ok tt,
         (fst st,
          snd st ++ [Print (lit "[Error] repo path for " ++ repo_name
                            ++ lit " is invalid")]))).
    { intros release web_root temp_dir st. unfold process_repo.
      now rewrite Hname, Hremote, Hsearch. }
    split; [apply Hone|split].
    + intros others st. cbn [for_each]. unfold bind at 1. now rewrite Hone.
    + intros w w2 config_file release temp_dir Hargs Hload
        curr_dir web_root w1 Htmp.
      assert (Hmain : main [] (w, [])
        = (Ok None,
           (w2,
            [Print (lit "config_file is " ++ config_file);
             Print (lit "k8s_release is " ++ release)]
            ++ (if length release =? 4
                then [Print (lit "k8s_release updated to "
                             ++ normalize_release release)]
                else [])
            ++ [Print (lit "curr_dir " ++ curr_dir);
                Print (lit "root_dir " ++ web_root);
                Chdir web_root;
                Print (lit "Making temp work_dir");
                Print (lit "Working dir " ++ temp_dir);
                Print (lit "[Error] repo path for " ++ repo_name
                       ++ lit " is invalid");
                Print (completed_msg temp_dir)]))).
      { unfold main. cbn [length Nat.ltb Nat.leb].
        rewrite step_ask. cbn [fst]. rewrite Hargs.
        rewrite !step_print.
        destruct (length release =? 4) eqn:El.
        - rewrite !step_print, step_ask, step_print, step_ask, step_print.
          rewrite step_ask. cbn [fst]. rewrite Hload.
          rewrite step_chdir, step_print, !step_ask. cbn [fst].
          fold curr_dir web_root w1. rewrite Htmp.
          unfold bind at 1. cbn [set_world fst snd].
          rewrite step_print. cbn [c_repos]. rewrite step_ret.
          unfold bind at 1. cbn [for_each]. unfold bind at 1.
          rewrite Hone. cbn [ret fst snd].
          rewrite step_print. cbn [ret fst snd]. reflexivity.
        - rewrite step_ret, step_ask, step_print, step_ask, step_print.
          rewrite step_ask. cbn [fst]. rewrite Hload.
          rewrite step_chdir, step_print, !step_ask. cbn [fst].
          fold curr_dir web_root w1. rewrite Htmp.
          unfold bind at 1. cbn [set_world fst snd].
          rewrite step_print. cbn [c_repos]. rewrite step_ret.
          unfold bind at 1. cbn [for_each]. unfold bind at 1.
          rewrite Hone. cbn [ret fst snd].
          rewrite step_print. cbn [ret fst snd]. reflexivity. }
      split; [exact Hmain|]. now rewrite Hmain.
Qed.

Example process_repo_remote_example :
  (exists rest,
      snd (snd (process_repo (lit "1.17.0") (lit "/site") (lit "/tmp/w")
                  valid_repo (sim_invalid, [])))
      = [] ++ [Chdir (lit "/tmp/w"); Print (lit "Cloning repo reference-docs");
               Shell (lit "git clone --depth=1 -b master https://github.com/kubernetes-sigs/reference-docs.git src/github.com/kubernetes-sigs/reference-docs")]
           ++ rest)
  /\ exit_status (fst (main [] (sim_invalid, []))) = 0%Z.
Proof.
  split.
  - exact (proj1 (@process_repo_remote sim sim_os
             (lit "1.17.0") (lit "/site") (lit "/tmp/w") valid_repo
             (lit "reference-docs")
             (lit "https://github.com/kubernetes-sigs/reference-docs.git")
             eq_refl eq_refl)
           (Re.MatchObj
              (lit "https://github.com/kubernetes-sigs/reference-docs.git")
              [("prefix"%string,
                lit "github.com/kubernetes-sigs/reference-docs")])
           (lit "master") (sim_invalid, []) eq_refl eq_refl eq_refl).
  - exact (proj2 (proj2 (proj2 (proj2 (proj2 (@process_repo_remote sim sim_os
             (lit "1.17.0") (lit "/site") (lit "/tmp/w") invalid_repo
             (lit "reference-docs")
             (lit "git@github.com:kubernetes-sigs/reference-docs.git")
             eq_refl eq_refl)) eq_refl))
           sim_invalid sim_invalid (lit "reference.yml") (lit "1.17")
           (lit "/tmp/tmpk8sdocs") eq_refl eq_refl eq_refl)).
Defined.

(** C5: the clone path is not always src/ followed by the prefix.  For a
    remote whose prefix starts with a slash the pattern matches, and the
    path joined from src and the prefix is the prefix itself: the
    repository is cloned into that absolute path, outside the work
    directory the script has changed into. *)
Theorem clone_path_absolute_prefix {W : Type} {os : OS W}
  (k8s_release root_dir work_dir : str) (repo : repo)
  (repo_name prefix branch : str) (st : @state W) :
  let repo_remote := lit "https://" ++ slash :: prefix ++ lit ".git" in
  r_name repo = Some repo_name -> r_remote repo = Some repo_remote ->
  no_newline prefix -> r_branch repo = Some branch ->
  (exists m,
      Re.search remote_regex repo_remote = Some m
      /\ Re.group m "prefix" = slash :: prefix
      /\ PosixPath.join (lit "src") [Re.group m "prefix"] = slash :: prefix)
  /\ slash :: prefix <> lit "src/" ++ slash :: prefix
  /\ (exists rest,
         snd (snd (process_repo k8s_release root_dir work_dir repo st))
         = snd st
           ++ [Chdir work_dir; Print (lit "Cloning repo " ++ repo_name);
               Shell (lit "git clone --depth=1 -b " ++ branch ++ lit " "
                      ++ repo_remote ++ lit " " ++ slash :: prefix)]
           ++ rest).
Proof.
  intros repo_remote Hname Hremote Hp Hb.
  assert (Hm : Re.search remote_regex repo_remote
               = Some (Re.MatchObj repo_remote
                         [("prefix"%string, slash :: prefix)])).
  { apply (RemoteFacts.remote_search (slash :: prefix)).
    unfold no_newline, lacks in *. cbn [forallb]. now rewrite Hp. }
  split; [|split].
  - eexists. split; [exact Hm|]. split; reflexivity.
  - intros E. apply (f_equal (@length ascii)) in E.
    cbn [length app lit list_ascii_of_string] in E. lia.
  - unfold process_repo. rewrite Hname, Hremote, Hb, Hm.
    change (PosixPath.join (lit "src")
              [Re.group (Re.MatchObj repo_remote
                           [("prefix"%string, slash :: prefix)]) "prefix"])
      with (slash :: prefix).
    rewrite step_chdir, step_print, step_ret, step_call.
    match goal with
    | |- context [ (if ?c then ?a else ?b) ?s ] =>
        assert (E : extends (if c then a else b))
    end.
    { repeat first [apply extends_process_file | extends_step]. }
    match goal with
    | |- context [ (if ?c then ?a else ?b) ?s ] =>
        destruct (E s) as [rest Hrest]; exists rest; rewrite Hrest
    end.
    cbn [snd]. rewrite <- !app_assoc. reflexivity.
Qed.

Lemma clone_path_absolute_prefix_witness :
  snd (snd (process_repo (lit "1.17.0") (lit "/site") (lit "/tmp/w")
              (Repo (Some (lit "local")) (Some (lit "https:///srv/docs.git"))
                    (Some (lit "master")) None false (Some []))
              (sim_invalid, [])))
  = [Chdir (lit "/tmp/w"); Print (lit "Cloning repo local");
     Shell (lit "git clone --depth=1 -b master https:///srv/docs.git /srv/docs");
     Print (lit "[Error] failed in cloning repo local")]
  /\ lit "/srv/docs" <> lit "src/" ++ lit "/srv/docs".
Proof.
  pose proof (@clone_path_absolute_prefix sim sim_os
    (lit "1.17.0") (lit "/site") (lit "/tmp/w")
    (Repo (Some (lit "local")) (Some (lit "https:///srv/docs.git"))
          (Some (lit "master")) None false (Some []))
    (lit "local") (lit "srv/docs") (lit "master") (sim_invalid, [])
    eq_refl eq_refl eq_refl eq_refl) as [_ [H2 _]].
  split; [reflexivity|exact H2].
Defined.

(** ** The directory of a matched file *)

Module DirFacts.

Import PosixPath.

Lemma drop_while_all (p : ascii -> bool) (xs l : str) :
  forallb p xs = true -> drop_while p (xs ++ l) = drop_while p l.
Proof.
  induction xs as [|x xs IH]; intros H; [reflexivity|].
  simpl in *. apply andb_true_iff in H as [H1 H2]. now rewrite H1, IH.
Qed.

Lemma last_not_slash (d : str) :
  d <> [] -> Py.endswith d [slash] = false ->
  exists c r, rev d = c :: r /\ is_slash c = false.
Proof.
  intros Hn He. unfold Py.endswith in He.
  destruct (rev d) as [|c r] eqn:E.
  - apply (f_equal (@rev ascii)) in E. rewrite rev_involutive in E.
    now subst d.
  - exists c, r. split; [reflexivity|]. simpl in He.
    now rewrite andb_true_r in He.
Qed.

(** The directory of dir/name is dir. *)
Lemma dirname_file (d name : str) :
  d <> [] -> Py.endswith d [slash] = false -> lacks slash name ->
  dirname (d ++ slash :: name) = d.
Proof.
  intros Hn He Hname.
  destruct (last_not_slash d Hn He) as (c & r & Er & Hc).
  unfold dirname.
  rewrite rev_app_distr. cbn [rev]. rewrite <- app_assoc. cbn [app].
  rewrite drop_while_all
    by (apply PathFacts.forallb_rev_true; exact Hname).
  assert (E1 : drop_while (fun c0 => negb (is_slash c0)) (slash :: rev d)
               = slash :: rev d) by reflexivity.
  rewrite E1. cbn [rev]. rewrite rev_involutive.
  assert (Ef : forallb is_slash (d ++ [slash]) = false).
  { rewrite <- (rev_involutive d), Er. cbn [rev].
    rewrite !forallb_app. cbn [forallb]. rewrite Hc.
    now rewrite andb_false_r. }
  rewrite Ef. rewrite rev_app_distr. cbn [rev app].
  assert (E2 : drop_while is_slash (slash :: rev d) = rev d).
  { change (drop_while is_slash (slash :: rev d))
      with (drop_while is_slash (rev d)).
    rewrite Er. cbn [drop_while]. now rewrite Hc. }
  rewrite E2. apply rev_involutive.
Qed.

Lemma endswith_after (a d : str) :
  d <> [] -> Py.endswith (a ++ d) [slash] = Py.endswith d [slash].
Proof.
  intros Hn. unfold Py.endswith. rewrite rev_app_distr.
  destruct (rev d) as [|c r] eqn:E; [|reflexivity].
  apply (f_equal (@rev ascii)) in E. rewrite rev_involutive in E.
  now subst d.
Qed.

End DirFacts.

(** C9: with gen-absolute-links set, every path the glob returns goes
    through the body of the loop, and for each of them the text handed to
    [process_links] is rewritten with the remote prefix repo_path/tree/master
    and, as the directory of the page, the directory name of that very path:
    this is the text that is written (after the kubectl rewriting when the
    destination ends in kubectl.md).  Every link the pattern finds whose URL
    is relative to the page gets that directory between the remote prefix
    and its URL, and for a file below the work directory the directory is
    the path of its directory with the work directory in front. *)
Theorem process_file_absolute_links {W : Type} {os : OS W}
  (src_pattern dst repo_path repo_dir root_dir : str) :
  let dst_path := PosixPath.join root_dir [dst] in
  let remote_prefix := repo_path ++ lit "/tree/master" in
  (forall st : @state W,
      process_file src_pattern dst repo_path repo_dir root_dir true st
      = for_each
          (glob (PosixPath.join repo_dir [repo_path; src_pattern]) (fst st))
          (fun src => process_match src dst_path repo_path true) st)
  /\ (forall (src content : str) (w w1 : W) (trace : list event),
         isfile src w = true -> read_text src w = inr content ->
         let out := resolve_dst dst_path src in
         let rewritten :=
           process_links content remote_prefix (PosixPath.dirname src) in
         open_w out w = inr w1 ->
         (Py.endswith out (lit "kubectl.md") = false ->
          forall w2, write_text out rewritten w1 = inr w2 ->
            process_match src dst_path repo_path true (w, trace)
            = (Ok tt,
               (w2, trace ++ [Print (lit "Writing doc: " ++ out); OpenW out;
                              WriteText out rewritten])))
         /\ (Py.endswith out (lit "kubectl.md") = true ->
             forall text w2,
               process_kubectl_links rewritten = Ok text ->
               write_text out text w1 = inr w2 ->
               process_match src dst_path repo_path true (w, trace)
               = (Ok tt,
                  (w2, trace ++ [Print (lit "Writing doc: " ++ out);
                                 OpenW out;
                                 Print (lit "Processing kubectl links");
                                 WriteText out text]))))
  /\ (forall (src content : str),
         process_links content remote_prefix (PosixPath.dirname src)
         = Re.sub h1_regex (fun _ => [])
             (Re.render (analyze remote_prefix (PosixPath.dirname src))
                (Re.scan link_regex content 0 0))
         /\ (forall m : Re.match_obj,
                In (Re.Mt m) (Re.scan link_regex content 0 0) ->
                already_absolute (Re.group m "target") = false ->
                Py.startswith (Re.group m "target") (lit "/") = false ->
                analyze remote_prefix (PosixPath.dirname src) m
                = format_link (Re.group m "ankor")
                    (remote_prefix ++ lit "/" ++ PosixPath.dirname src
                     ++ lit "/" ++ Re.group m "target")))
  /\ (forall dir name,
         dir <> [] -> Py.endswith dir (lit "/") = false ->
         lacks slash name ->
         PosixPath.dirname
           (repo_dir ++ lit "/" ++ repo_path ++ lit "/" ++ dir
            ++ lit "/" ++ name)
         = repo_dir ++ lit "/" ++ repo_path ++ lit "/" ++ dir).
Proof.
  intros dst_path remote_prefix. split; [|split; [|split]].
  - intros st. unfold process_file. now rewrite step_ask.
  - intros src content w w1 trace Hfile Hread out rewritten Hopen.
    assert (Hrun : process_match src dst_path repo_path true (w, trace)
      = (if Py.endswith out (lit "kubectl.md")
         then
           print (lit "Processing kubectl links") ;;
           match process_kubectl_links rewritten with
           | Ok text =>
               wr <- ask (write_text out text) ;;
               match wr with
               | inl ex =>
                   print (lit "[Error] failed in writing target file " ++ out
                          ++ lit ": " ++ ex)
               | inr w' => set_world w' ;; emit (WriteText out text)
               end
           | Raise _ =>
               print (lit "[Error] failed in writing target file " ++ out
                      ++ lit ": " ++ lit "list index out of range")
           end
         else
           wr <- ask (write_text out rewritten) ;;
           match wr with
           | inl ex =>
               print (lit "[Error] failed in writing target file " ++ out
                      ++ lit ": " ++ ex)
           | inr w' => set_world w' ;; emit (WriteText out rewritten)
           end)
          (w1, trace ++ [Print (lit "Writing doc: " ++ out); OpenW out])).
    { unfold process_match.
      rewrite step_ask. cbn [fst]. rewrite Hfile. cbn [negb].
      rewrite step_ask. cbn [fst]. rewrite Hread.
      fold out. cbv zeta. rewrite step_print, step_ask. cbn [fst].
      rewrite Hopen. unfold bind at 1. cbn [set_world fst snd].
      unfold bind at 1. cbn [emit fst snd].
      fold remote_prefix. fold rewritten.
      now rewrite <- !app_assoc. }
    split.
    + intros Hk w2 Hwrite. rewrite Hrun, Hk.
      rewrite step_ask. cbn [fst]. rewrite Hwrite.
      unfold bind at 1. cbn [set_world fst snd]. unfold emit. cbn [fst snd].
      now rewrite <- !app_assoc.
    + intros Hk text w2 Htext Hwrite. rewrite Hrun, Hk.
      rewrite step_print, Htext, step_ask. cbn [fst]. rewrite Hwrite.
      unfold bind at 1. cbn [set_world fst snd]. unfold emit. cbn [fst snd].
      now rewrite <- !app_assoc.
  - intros src content. split; [reflexivity|]. intros m Hin Ha Hs.
    destruct (SecondPass.link_matches m content Hin)
      as (ankor & target & ->).
    rewrite analyze_absolute_url.
    unfold Re.group in *.
    cbn [Re.lookup Re.m_groups String.eqb Ascii.eqb Bool.eqb] in *.
    unfold absolute_url. unfold already_absolute in Ha.
    apply orb_false_iff in Ha as [Ha H3].
    apply orb_false_iff in Ha as [H1 H2].
    now rewrite H1, H2, H3, Hs.
  - intros dir name Hn He Hname.
    replace (repo_dir ++ lit "/" ++ repo_path ++ lit "/" ++ dir
             ++ lit "/" ++ name)
      with ((repo_dir ++ lit "/" ++ repo_path ++ lit "/" ++ dir)
            ++ slash :: name)
      by (repeat (rewrite <- app_assoc; cbn [app lit list_ascii_of_string]);
          reflexivity).
    apply DirFacts.dirname_file; trivial.
    + destruct dir; [congruence|]. intros E.
      apply (f_equal (@length ascii)) in E. rewrite !length_app in E.
      cbn [length] in E. lia.
    + rewrite !app_assoc. now rewrite DirFacts.endswith_after.
Qed.

Lemma process_file_absolute_links_witness :
  snd (snd (process_file (lit "docs/*.md") (lit "content/en/docs/")
              (lit "src/k8s.io/x") (lit "/tmp/tmpk8sdocs") (lit "/site") true
              (sim_docs, [])))
  = [Print (lit "Writing doc: /site/content/en/docs/a.md");
     OpenW (lit "/site/content/en/docs/a.md");
     WriteText (lit "/site/content/en/docs/a.md")
       (lit "See [b](src/k8s.io/x/tree/master//tmp/tmpk8sdocs/src/k8s.io/x/docs/b.md)")]
  /\ PosixPath.dirname (lit "/tmp/tmpk8sdocs/src/k8s.io/x/docs/a.md")
     = lit "/tmp/tmpk8sdocs/src/k8s.io/x/docs".
Proof.
  pose proof (@process_file_absolute_links sim sim_os
    (lit "docs/*.md") (lit "content/en/docs/") (lit "src/k8s.io/x")
    (lit "/tmp/tmpk8sdocs") (lit "/site")) as [H1 [H2 [_ H4]]].
  split.
  - rewrite H1. cbn [for_each].
    change (glob (PosixPath.join (lit "/tmp/tmpk8sdocs")
                    [lit "src/k8s.io/x"; lit "docs/*.md"])
              (fst (sim_docs, @nil event)))
      with [lit "/tmp/tmpk8sdocs/src/k8s.io/x/docs/a.md"].
    cbn [for_each]. unfold bind at 1.
    rewrite (proj1 (H2 (lit "/tmp/tmpk8sdocs/src/k8s.io/x/docs/a.md")
                       (lit "See [b](b.md)") sim_docs
                       (sim_store (lit "/site/content/en/docs/a.md") []
                          sim_docs)
                       [] eq_refl eq_refl eq_refl) eq_refl
               (sim_store (lit "/site/content/en/docs/a.md")
                  (lit "See [b](src/k8s.io/x/tree/master//tmp/tmpk8sdocs/src/k8s.io/x/docs/b.md)")
                  (sim_store (lit "/site/content/en/docs/a.md") []
                     sim_docs))
               eq_refl).
    reflexivity.
  - apply (H4 (lit "docs") (lit "a.md")); try reflexivity. discriminate.
Defined.

(** ** The checks before [main] *)

Section Preflight.

Context {W : Type} {os : OS W}.

(** When the package listing succeeds the three checks are all made, each
    adding its own message. *)
Lemma preflight_checks (w : W) (trace : list event) (reqs : str) :
  pip_freeze w = Some reqs ->
  preflight (w, trace)
  = (Ok ((if which (lit "pip") w || which (lit "pip3") w
          then [] else [msg_pip])
         ++ (if Py.contains
                  (map (fun r => hd [] (Py.split r (lit "==")))
                       (split_ws reqs)) (lit "PyYAML")
             then [] else [msg_yaml])
         ++ (if which (lit "go") w then [] else [msg_go])),
     (w, trace)).
Proof.
  intros H. unfold preflight. rewrite !step_ask. cbn [fst]. rewrite H.
  rewrite step_ask. cbn [fst]. unfold ret.
  destruct (which (lit "pip") w || which (lit "pip3") w);
    destruct (Py.contains _ _); destruct (which (lit "go") w); reflexivity.
Qed.

(** With a message in the list, [main] prints every message and returns -2
    without reading the command line or the machine. *)
Lemma main_with_errors (msg : str) (msgs : list str) (st : @state W) :
  main (msg :: msgs) st
  = (Ok (Some (-2)%Z),
     (fst st, snd st ++ map (fun m => Print (m ++ [nl])) (msg :: msgs))).
Proof.
  unfold main. cbn [length Nat.ltb Nat.leb].
  assert (E : forall l (s : @state W),
    for_each l (fun m => print (m ++ [nl])) s
    = (Ok tt, (fst s, snd s ++ map (fun m => Print (m ++ [nl])) l))).
  { induction l as [|m l IH]; intros s.
    - cbn. rewrite app_nil_r. now destruct s.
    - cbn [for_each map]. rewrite step_print, IH. cbn [fst snd].
      now rewrite <- app_assoc. }
  unfold bind. now rewrite E.
Qed.

(** When the package listing fails the run ends there: the message about
    pip is never printed and the check of go is never made. *)
Lemma preflight_listing_fails (w : W) (trace : list event) :
  pip_freeze w = None ->
  script (w, trace) = (Raise CalledProcessError, (w, trace)).
Proof.
  intros H. unfold script, preflight. unfold bind at 1.
  rewrite !step_ask. cbn [fst]. now rewrite H.
Qed.

End Preflight.

(** C4 on a machine without pip: the claim asks for the three messages and
    the exit status of [main]; the script prints nothing and ends with the
    status of an uncaught exception. *)
Theorem script_without_pip :
  which (lit "pip") sim_bare = false
  /\ which (lit "pip3") sim_bare = false
  /\ which (lit "go") sim_bare = false
  /\ run_on script sim_bare = (Raise CalledProcessError, [])
  /\ exit_status (fst (run_on script sim_bare)) = 1%Z.
Proof. repeat split. Qed.

(** On a machine where the listing works, the messages of all the failed
    checks are printed and the run ends with the status of -2. *)
Example script_without_yaml_and_go :
  run_on script sim_no_yaml_no_go
  = (Ok (Some (-2)%Z),
     [Print (msg_yaml ++ [nl]); Print (msg_go ++ [nl])])
  /\ exit_status (fst (run_on script sim_no_yaml_no_go)) = 254%Z.
Proof. split; reflexivity. Qed.

(** * Further properties of the script *)

(** ** What a computation adds to the trace *)

Section Outcomes.

Context {W : Type} {os : OS W}.

Lemma emits_ret {A : Type} P (a : A) : emits (W:=W) P (ret a).
Proof. intros st. exists []. cbn. rewrite app_nil_r. now split. Qed.

Lemma emits_raise {A : Type} P (e : exn) : emits (W:=W) P (raise (A:=A) e).
Proof. intros st. exists []. cbn. rewrite app_nil_r. now split. Qed.

Lemma emits_ask {A : Type} P (f : W -> A) : emits (W:=W) P (ask f).
Proof. intros st. exists []. cbn. rewrite app_nil_r. now split. Qed.

Lemma emits_set_world P (w : W) : emits (W:=W) P (set_world w).
Proof. intros st. exists []. cbn. rewrite app_nil_r. now split. Qed.

Lemma emits_emit (P : event -> Prop) (e : event) :
  P e -> emits (W:=W) P (emit e).
Proof. intros H st. exists [e]. split; [reflexivity|]. now constructor. Qed.

Lemma emits_print (P : event -> Prop) (text : str) :
  P (Print text) -> emits (W:=W) P (print text).
Proof. apply emits_emit. Qed.

Lemma emits_do_chdir (P : event -> Prop) (dir : str) :
  P (Chdir dir) -> emits (W:=W) P (do_chdir dir).
Proof.
  intros H st. exists [Chdir dir]. split; [reflexivity|]. now constructor.
Qed.

Lemma emits_call (P : event -> Prop) (cmd : str) :
  P (Shell cmd) -> emits (W:=W) P (call cmd).
Proof.
  intros H st. exists [Shell cmd]. unfold call.
  destruct (subprocess_call cmd (fst st)). split; [reflexivity|].
  now constructor.
Qed.

Lemma emits_bind {A B : Type} P (c : @M W A) (f : A -> @M W B) :
  emits P c -> (forall a, emits P (f a)) -> emits P (bind c f).
Proof.
  intros Hc Hf st. unfold bind.
  destruct (Hc st) as (r1 & E1 & F1).
  destruct (c st) as [[a|e] st1]; cbn [snd] in E1.
  - destruct (Hf a st1) as (r2 & E2 & F2). exists (r1 ++ r2). split.
    + now rewrite E2, E1, app_assoc.
    + apply Forall_app. now split.
  - exists r1. now split.
Qed.

Lemma emits_for_each {A : Type} P (l : list A) (body : A -> @M W unit) :
  (forall x, emits P (body x)) -> emits P (for_each l body).
Proof.
  intros H. induction l as [|x l IH]; cbn [for_each].
  - apply emits_ret.
  - apply emits_bind; [apply H|intros _; exact IH].
Qed.

Lemma emits_weaken {A : Type} (P Q : event -> Prop) (c : @M W A) :
  (forall e, P e -> Q e) -> emits P c -> emits Q c.
Proof.
  intros H Hc st. destruct (Hc st) as (rest & E & F).
  exists rest. split; [exact E|]. eapply Forall_impl; eauto.
Qed.

End Outcomes.

Ltac emits_step :=
  first
    [ apply emits_ret | apply emits_raise | apply emits_ask
    | apply emits_set_world
    | apply emits_bind; [|intros]
    | match goal with
      | |- emits _ (match ?x with _ => _ end) => destruct x
      | |- emits _ (if ?x then _ else _) => destruct x
      end ].

(** ** [process_file] writes below its destination *)

Lemma startswith_self (s : str) : Py.startswith s s = true.
Proof. rewrite <- (app_nil_r s) at 1. apply PyFacts.startswith_app. Qed.

Lemma resolve_dst_below (dst_path src : str) :
  Py.startswith (resolve_dst dst_path src) dst_path = true.
Proof.
  unfold resolve_dst. destruct (Py.endswith dst_path (lit "/")) eqn:E.
  - unfold PosixPath.join. cbn [fold_left].
    rewrite PathFacts.join2_dir;
      [apply PyFacts.startswith_app|exact E
      |apply PathFacts.basename_not_absolute].
  - apply startswith_self.
Qed.

Lemma process_match_emits {W : Type} {os : OS W}
  (src dst_path repo_path : str) (gen : bool) :
  emits (W:=W) (file_event dst_path)
    (process_match src dst_path repo_path gen).
Proof.
  unfold process_match. cbv zeta.
  repeat first
    [ emits_step
    | apply emits_print; exact I
    | apply emits_emit; cbn [file_event]; apply resolve_dst_below ].
Qed.

Lemma process_file_emits {W : Type} {os : OS W}
  (src dst repo_path repo_dir root_dir : str) (gen : bool) :
  emits (W:=W) (file_event (PosixPath.join root_dir [dst]))
    (process_file src dst repo_path repo_dir root_dir gen).
Proof.
  unfold process_file.
  apply emits_bind; [apply emits_ask|intros srcs].
  apply emits_for_each. intros x. apply process_match_emits.
Qed.

(** X1: whatever the file system answers, every event [process_file] adds
    to the trace is a print, or the opening or the writing of a path that
    starts with the destination path (the web root joined with [dst]): it
    runs no command, changes no directory and writes nowhere else. *)
Theorem process_file_contained {W : Type} {os : OS W}
  (src dst repo_path repo_dir root_dir : str) (gen : bool) (st : @state W) :
  exists rest,
    snd (snd (process_file src dst repo_path repo_dir root_dir gen st))
    = snd st ++ rest
    /\ Forall (file_event (PosixPath.join root_dir [dst])) rest.
Proof.
  destruct (process_file_emits src dst repo_path repo_dir root_dir gen st)
    as (rest & E & F).
  exists rest. now split.
Qed.

(** ** The link text without a kubectl prefix *)

(** X3: on a line that holds one link, a URL that ends in .md and begins
    with kubectl together with a link text that holds no kubectl followed
    by a space makes [process_kubectl_links] raise IndexError: the split of
    the text has one piece and the code takes the second. *)
Theorem process_kubectl_links_raises (pre text url post tail : str) :
  lacks "[" pre -> no_newline text -> no_newline url -> lacks "]" url ->
  lacks ")" url -> no_newline post -> lacks "[" post -> lacks "]" post ->
  line_end tail ->
  kubectl_page url = true -> occurs (lit "kubectl ") text = false ->
  process_kubectl_links (pre ++ format_link text url ++ post ++ tail)
  = Raise IndexError.
Proof.
  intros Hpre Ht Hu Hu1 Hu2 Hp Hp1 Hp2 He Hk Ho.
  rewrite KubectlFacts.kubectl_line by assumption.
  now rewrite KubectlFacts.kubectl_analyze_raises.
Qed.

Lemma process_kubectl_links_raises_witness :
  process_kubectl_links (lit "* [kubeadm](kubectl_kubeadm.md) - see also")
  = Raise IndexError.
Proof.
  exact (process_kubectl_links_raises
           (lit "* ") (lit "kubeadm") (lit "kubectl_kubeadm.md")
           (lit " - see also") []
           eq_refl eq_refl eq_refl eq_refl eq_refl eq_refl eq_refl eq_refl I
           eq_refl eq_refl).
Defined.

(** X4: when the rewriting of the kubectl links raises, [process_file] has
    already opened the destination for writing: the file is left empty,
    nothing is written to it, the failure is printed with the text of the
    exception and the loop goes on. *)
Theorem process_match_kubectl_failure {W : Type} {os : OS W}
  (src dst_path repo_path content : str) (gen : bool)
  (w w1 : W) (trace : list event) :
  isfile src w = true -> read_text src w = inr content ->
  let out := resolve_dst dst_path src in
  let rewritten :=
    if gen
    then process_links content (repo_path ++ lit "/tree/master")
           (PosixPath.dirname src)
    else content in
  Py.endswith out (lit "kubectl.md") = true ->
  open_w out w = inr w1 ->
  process_kubectl_links rewritten = Raise IndexError ->
  process_match src dst_path repo_path gen (w, trace)
  = (Ok tt,
     (w1, trace ++ [Print (lit "Writing doc: " ++ out); OpenW out;
                    Print (lit "Processing kubectl links");
                    Print (lit "[Error] failed in writing target file "
                           ++ out ++ lit ": list index out of range")])).
Proof.
  intros Hfile Hread out rewritten Hk Hopen Hraise.
  unfold process_match.
  rewrite step_ask. cbn [fst]. rewrite Hfile. cbn [negb].
  rewrite step_ask. cbn [fst]. rewrite Hread.
  fold out. cbv zeta. rewrite step_print, step_ask. cbn [fst].
  rewrite Hopen. unfold bind at 1. cbn [set_world fst snd].
  unfold bind at 1. cbn [emit fst snd]. rewrite Hk.
  fold rewritten. rewrite step_print. rewrite Hraise.
  unfold print, emit. cbn [fst snd]. rewrite <- !app_assoc. reflexivity.
Qed.

Lemma process_match_kubectl_failure_witness :
  process_match (lit "/tmp/w/src/k8s.io/x/docs/kubectl.md")
    (lit "/site/content/en/docs/") (lit "src/k8s.io/x") false
    (sim_kubectl, [])
  = (Ok tt,
     (sim_store (lit "/site/content/en/docs/kubectl.md") [] sim_kubectl,
      [Print (lit "Writing doc: /site/content/en/docs/kubectl.md");
       OpenW (lit "/site/content/en/docs/kubectl.md");
       Print (lit "Processing kubectl links");
       Print (lit "[Error] failed in writing target file /site/content/en/docs/kubectl.md: list index out of range")])).
Proof.
  exact (@process_match_kubectl_failure sim sim_os
           (lit "/tmp/w/src/k8s.io/x/docs/kubectl.md")
           (lit "/site/content/en/docs/") (lit "src/k8s.io/x")
           (lit "* [kubeadm](kubectl_kubeadm.md) - see also") false
           sim_kubectl
           (sim_store (lit "/site/content/en/docs/kubectl.md") [] sim_kubectl)
           [] eq_refl eq_refl eq_refl eq_refl eq_refl).
Defined.

(** ** Paths that are passed over *)

(** X5: a path of the glob that is not a regular file, or that cannot be
    read, costs one printed line and nothing else: when every path of the
    glob is like that, [process_file] opens and writes nothing and leaves
    the machine as it was.  The line for a file that cannot be read does
    not hold the text of the error. *)
Theorem process_file_skips {W : Type} {os : OS W}
  (src dst repo_path repo_dir root_dir : str) (gen : bool)
  (w : W) (trace : list event) :
  (forall path,
      In path (glob (PosixPath.join repo_dir [repo_path; src]) w) ->
      isfile path w = false \/ exists ex, read_text path w = inl ex) ->
  process_file src dst repo_path repo_dir root_dir gen (w, trace)
  = (Ok tt,
     (w, trace ++ map (skipped w)
                    (glob (PosixPath.join repo_dir [repo_path; src]) w))).
Proof.
  intros H. unfold process_file. rewrite step_ask. cbn [fst].
  revert trace H.
  induction (glob (PosixPath.join repo_dir [repo_path; src]) w)
    as [|p l IH]; intros trace H.
  - cbn. now rewrite app_nil_r.
  - cbn [for_each map]. unfold bind at 1.
    assert (E : process_match p (PosixPath.join root_dir [dst]) repo_path gen
                  (w, trace)
                = (Ok tt, (w, trace ++ [skipped w p]))).
    { unfold process_match, skipped. rewrite step_ask. cbn [fst].
      destruct (isfile p w) eqn:Ef; cbn [negb].
      - destruct (H p (or_introl eq_refl)) as [Hf|[ex Hr]]; [congruence|].
        rewrite step_ask. cbn [fst]. rewrite Hr. reflexivity.
      - reflexivity. }
    rewrite E. rewrite IH by (intros; apply H; now right).
    now rewrite <- app_assoc.
Qed.

Lemma process_file_skips_witness :
  process_file (lit "docs/*") (lit "content/en/docs/") (lit "src/k8s.io/x")
    (lit "/tmp/w") (lit "/site") true (sim_dirs, [])
  = (Ok tt,
     (sim_dirs,
      [Print (lit "[Error] skipping non-regular path /tmp/w/src/k8s.io/x/docs/images");
       Print (lit "[Error] skipping non-regular path /tmp/w/src/k8s.io/x/docs/css")])).
Proof.
  apply (@process_file_skips sim sim_os (lit "docs/*")
           (lit "content/en/docs/") (lit "src/k8s.io/x") (lit "/tmp/w")
           (lit "/site") true sim_dirs []).
  intros path H. left. cbn in H.
  destruct H as [<-|[<-|[]]]; reflexivity.
Defined.

(** ** A repository whose clone or generation fails *)

(** X6: when git ends with a status other than 0, the failure is printed
    and nothing more is done for the repository: no change into the clone,
    no generate command, no file copied. *)
Theorem process_repo_clone_fails {W : Type} {os : OS W}
  (k8s_release root_dir work_dir : str) (r : repo)
  (repo_name repo_remote branch : str) (m : Re.match_obj)
  (st : @state W) (res : Z) (w1 : W) :
  r_name r = Some repo_name -> r_remote r = Some repo_remote ->
  Re.search remote_regex repo_remote = Some m ->
  r_branch r = Some branch ->
  let repo_path := PosixPath.join (lit "src") [Re.group m "prefix"] in
  let cmd := lit "git clone --depth=1 -b " ++ branch ++ lit " "
             ++ repo_remote ++ lit " " ++ repo_path in
  subprocess_call cmd (chdir work_dir (fst st)) = (res, w1) ->
  res <> 0%Z ->
  process_repo k8s_release root_dir work_dir r st
  = (Ok tt,
     (w1, snd st ++ [Chdir work_dir; Print (lit "Cloning repo " ++ repo_name);
                     Shell cmd;
                     Print (lit "[Error] failed in cloning repo "
                            ++ repo_name)])).
Proof.
  intros Hname Hremote Hm Hb repo_path cmd Hcall Hres.
  subst cmd repo_path.
  unfold process_repo. rewrite Hname, Hremote, Hm, Hb.
  rewrite step_chdir, step_print, step_ret, step_call.
  cbn [fst snd]. rewrite Hcall. cbn [fst snd].
  apply Z.eqb_neq in Hres. rewrite Hres. cbn [negb].
  unfold print, emit. cbn [fst snd]. rewrite <- !app_assoc. reflexivity.
Qed.

Lemma process_repo_clone_fails_witness :
  process_repo (lit "1.17.0") (lit "/site") (lit "/tmp/w") valid_repo
    (sim_invalid, [])
  = (Ok tt,
     (sim_invalid,
      [Chdir (lit "/tmp/w"); Print (lit "Cloning repo reference-docs");
       Shell (lit "git clone --depth=1 -b master https://github.com/kubernetes-sigs/reference-docs.git src/github.com/kubernetes-sigs/reference-docs");
       Print (lit "[Error] failed in cloning repo reference-docs")])).
Proof.
  apply (@process_repo_clone_fails sim sim_os
           (lit "1.17.0") (lit "/site") (lit "/tmp/w") valid_repo
           (lit "reference-docs")
           (lit "https://github.com/kubernetes-sigs/reference-docs.git")
           (lit "master")
           (Re.MatchObj
              (lit "https://github.com/kubernetes-sigs/reference-docs.git")
              [("prefix"%string,
                lit "github.com/kubernetes-sigs/reference-docs")])
           (sim_invalid, []) 1%Z sim_invalid);
    try reflexivity.
  discriminate.
Defined.

(** X7: when the repository is cloned and its generate command ends with a
    status other than 0, the command that was run is the four export lines
    (release, GOPATH, K8S_ROOT, K8S_WEBROOT) followed by the configured
    command, run after the change into the clone; the failure is printed and
    no file of the repository is copied. *)
Theorem process_repo_generate_fails {W : Type} {os : OS W}
  (k8s_release root_dir work_dir : str) (r : repo)
  (repo_name repo_remote branch gen_cmd : str) (m : Re.match_obj)
  (st : @state W) (res : Z) (w1 w2 : W) :
  r_name r = Some repo_name -> r_remote r = Some repo_remote ->
  Re.search remote_regex repo_remote = Some m ->
  r_branch r = Some branch -> r_generate_command r = Some gen_cmd ->
  let repo_path := PosixPath.join (lit "src") [Re.group m "prefix"] in
  let clone := lit "git clone --depth=1 -b " ++ branch ++ lit " "
               ++ repo_remote ++ lit " " ++ repo_path in
  let generate := exports k8s_release work_dir root_dir ++ gen_cmd in
  subprocess_call clone (chdir work_dir (fst st)) = (0%Z, w1) ->
  subprocess_call generate (chdir repo_path w1) = (res, w2) ->
  res <> 0%Z ->
  process_repo k8s_release root_dir work_dir r st
  = (Ok tt,
     (w2, snd st ++ [Chdir work_dir; Print (lit "Cloning repo " ++ repo_name);
                     Shell clone; Chdir repo_path;
                     Print (lit "Generating docs for " ++ repo_name
                            ++ lit " with " ++ generate);
                     Shell generate;
                     Print (lit "[Error] failed in generating docs for "
                            ++ repo_name)])).
Proof.
  intros Hname Hremote Hm Hb Hg repo_path clone generate Hclone Hgen Hres.
  assert (Eg : lit "export K8S_RELEASE=" ++ k8s_release ++ [nl]
               ++ lit "export GOPATH=" ++ work_dir ++ [nl]
               ++ lit "export K8S_ROOT=" ++ work_dir
               ++ lit "/src/k8s.io/kubernetes" ++ [nl]
               ++ lit "export K8S_WEBROOT=" ++ root_dir ++ [nl] ++ gen_cmd
               = generate).
  { unfold generate, exports. now rewrite <- !app_assoc. }
  clearbody generate. subst clone repo_path.
  unfold process_repo. rewrite Hname, Hremote, Hm, Hb, Hg.
  rewrite Eg.
  rewrite step_chdir, step_print, step_ret, step_call.
  cbn [fst snd]. rewrite Hclone. cbn [fst snd Z.eqb negb].
  rewrite step_chdir. cbn [fst snd].
  unfold bind at 1. rewrite step_print, step_call.
  cbn [fst snd]. rewrite Hgen. cbn [fst snd].
  apply Z.eqb_neq in Hres. rewrite Hres. cbn [negb].
  rewrite step_print. cbn [ret fst snd]. rewrite <- !app_assoc. reflexivity.
Qed.

Lemma process_repo_generate_fails_witness :
  snd (snd (process_repo (lit "1.17.0") (lit "/site") (lit "/tmp/w") gen_repo
              (sim_gen_fails, [])))
  = [Chdir (lit "/tmp/w"); Print (lit "Cloning repo reference-docs");
     Shell (lit "git clone --depth=1 -b master https://github.com/kubernetes-sigs/reference-docs.git src/github.com/kubernetes-sigs/reference-docs");
     Chdir (lit "src/github.com/kubernetes-sigs/reference-docs");
     Print (lit "Generating docs for reference-docs with "
            ++ exports (lit "1.17.0") (lit "/tmp/w") (lit "/site")
            ++ lit "cd gen-compdocs && make cli");
     Shell (exports (lit "1.17.0") (lit "/tmp/w") (lit "/site")
            ++ lit "cd gen-compdocs && make cli");
     Print (lit "[Error] failed in generating docs for reference-docs")].
Proof.
  rewrite (@process_repo_generate_fails sim sim_os
             (lit "1.17.0") (lit "/site") (lit "/tmp/w") gen_repo
             (lit "reference-docs")
             (lit "https://github.com/kubernetes-sigs/reference-docs.git")
             (lit "master") (lit "cd gen-compdocs && make cli")
             (Re.MatchObj
                (lit "https://github.com/kubernetes-sigs/reference-docs.git")
                [("prefix"%string,
                  lit "github.com/kubernetes-sigs/reference-docs")])
             (sim_gen_fails, []) 2%Z sim_gen_fails sim_gen_fails);
    try reflexivity.
  discriminate.
Defined.

(** ** A repository that is cloned and generated *)

(** X8: when git and the generate command both end with the status 0, the
    script changes back into the web root and runs the loop over the
    directives of the repository from there: each directive in turn, its
    pattern looked up below the work directory joined with the clone path,
    with the flag of the repository. *)
Theorem process_repo_copies {W : Type} {os : OS W}
  (k8s_release root_dir work_dir : str) (r : repo)
  (repo_name repo_remote branch gen_cmd : str) (m : Re.match_obj)
  (files : list file_directive) (st : @state W) (w1 w2 : W) :
  r_name r = Some repo_name -> r_remote r = Some repo_remote ->
  Re.search remote_regex repo_remote = Some m ->
  r_branch r = Some branch -> r_generate_command r = Some gen_cmd ->
  r_files r = Some files ->
  let repo_path := PosixPath.join (lit "src") [Re.group m "prefix"] in
  let clone := lit "git clone --depth=1 -b " ++ branch ++ lit " "
               ++ repo_remote ++ lit " " ++ repo_path in
  let generate := exports k8s_release work_dir root_dir ++ gen_cmd in
  subprocess_call clone (chdir work_dir (fst st)) = (0%Z, w1) ->
  subprocess_call generate (chdir repo_path w1) = (0%Z, w2) ->
  process_repo k8s_release root_dir work_dir r st
  = for_each files
      (process_directive repo_path work_dir root_dir (r_gen_absolute_links r))
      (chdir root_dir w2,
       snd st
       ++ [Chdir work_dir; Print (lit "Cloning repo " ++ repo_name);
           Shell clone; Chdir repo_path;
           Print (lit "Generating docs for " ++ repo_name
                  ++ lit " with " ++ generate);
           Shell generate; Chdir root_dir])
  /\ (forall src dst st',
         process_directive repo_path work_dir root_dir
           (r_gen_absolute_links r) (FileDirective (Some src) (Some dst)) st'
         = for_each (glob (PosixPath.join work_dir [repo_path; src]) (fst st'))
             (fun path =>
                process_match path (PosixPath.join root_dir [dst]) repo_path
                  (r_gen_absolute_links r))
             st').
Proof.
  intros Hname Hremote Hm Hb Hg Hf repo_path clone generate Hclone Hgen.
  assert (Eg : lit "export K8S_RELEASE=" ++ k8s_release ++ [nl]
               ++ lit "export GOPATH=" ++ work_dir ++ [nl]
               ++ lit "export K8S_ROOT=" ++ work_dir
               ++ lit "/src/k8s.io/kubernetes" ++ [nl]
               ++ lit "export K8S_WEBROOT=" ++ root_dir ++ [nl] ++ gen_cmd
               = generate).
  { unfold generate, exports. now rewrite <- !app_assoc. }
  clearbody generate. subst clone. split.
  - unfold process_repo. rewrite Hname, Hremote, Hm, Hb, Hg, Hf.
    fold repo_path. rewrite Eg.
    rewrite step_chdir, step_print, step_ret, step_call.
    cbn [fst snd]. rewrite Hclone. cbn [fst snd Z.eqb negb].
    rewrite step_chdir. cbn [fst snd].
    unfold bind at 1. rewrite step_print, step_call.
    cbn [fst snd]. rewrite Hgen. cbn [fst snd Z.eqb negb ret].
    rewrite step_chdir, step_ret. cbn [fst snd].
    now rewrite <- !app_assoc.
  - intros src dst st'. unfold process_directive. cbn [f_src f_dst].
    rewrite !step_ret. unfold process_file. now rewrite step_ask.
Qed.

Lemma process_repo_copies_witness :
  snd (snd (process_repo (lit "1.17.0") (lit "/site") (lit "/tmp/w") gen_repo
              (sim_gen_pages, [])))
  = [Chdir (lit "/tmp/w"); Print (lit "Cloning repo reference-docs");
     Shell (lit "git clone --depth=1 -b master https://github.com/kubernetes-sigs/reference-docs.git src/github.com/kubernetes-sigs/reference-docs");
     Chdir (lit "src/github.com/kubernetes-sigs/reference-docs");
     Print (lit "Generating docs for reference-docs with "
            ++ exports (lit "1.17.0") (lit "/tmp/w") (lit "/site")
            ++ lit "cd gen-compdocs && make cli");
     Shell (exports (lit "1.17.0") (lit "/tmp/w") (lit "/site")
            ++ lit "cd gen-compdocs && make cli");
     Chdir (lit "/site");
     Print (lit "Writing doc: /site/content/en/docs/reference/kubeadm.md");
     OpenW (lit "/site/content/en/docs/reference/kubeadm.md");
     WriteText (lit "/site/content/en/docs/reference/kubeadm.md")
       (lit "kubeadm");
     Print (lit "Writing doc: /site/content/en/docs/kubectl.md");
     OpenW (lit "/site/content/en/docs/kubectl.md");
     Print (lit "Processing kubectl links");
     WriteText (lit "/site/content/en/docs/kubectl.md")
       (lit "* [kubectl get](/docs/reference/generated/kubectl/kubectl-commands#get)")].
Proof.
  rewrite (proj1 (@process_repo_copies sim sim_os
             (lit "1.17.0") (lit "/site") (lit "/tmp/w") gen_repo
             (lit "reference-docs")
             (lit "https://github.com/kubernetes-sigs/reference-docs.git")
             (lit "master") (lit "cd gen-compdocs && make cli")
             (Re.MatchObj
                (lit "https://github.com/kubernetes-sigs/reference-docs.git")
                [("prefix"%string,
                  lit "github.com/kubernetes-sigs/reference-docs")])
             [FileDirective (Some (lit "gen-compdocs/build/*.md"))
                            (Some (lit "content/en/docs/reference/"));
              FileDirective (Some (lit "gen-compdocs/build/kubectl.md"))
                            (Some (lit "content/en/docs/kubectl.md"))]
             (sim_gen_pages, []) sim_gen_pages sim_gen_pages
             eq_refl eq_refl eq_refl eq_refl eq_refl eq_refl eq_refl eq_refl)).
  reflexivity.
Defined.

(** ** A repository without a key *)

(** X9: a repository whose remote matches and which has no key branch
    raises KeyError after the change into the work directory and before any
    command is run; the exception leaves the loop, so the repositories that
    follow are not processed. *)
Theorem process_repo_missing_branch {W : Type} {os : OS W}
  (k8s_release root_dir work_dir : str) (r : repo) (others : list repo)
  (repo_name repo_remote : str) (m : Re.match_obj) (st : @state W) :
  r_name r = Some repo_name -> r_remote r = Some repo_remote ->
  Re.search remote_regex repo_remote = Some m ->
  r_branch r = None ->
  for_each (r :: others) (process_repo k8s_release root_dir work_dir) st
  = (Raise (KeyError (lit "branch")),
     (chdir work_dir (fst st),
      snd st ++ [Chdir work_dir; Print (lit "Cloning repo " ++ repo_name)])).
Proof.
  intros Hname Hremote Hm Hb.
  cbn [for_each]. unfold bind at 1.
  unfold process_repo. rewrite Hname, Hremote, Hm, Hb.
  rewrite step_chdir, step_print. unfold bind, raise. cbn [fst snd].
  now rewrite <- !app_assoc.
Qed.

Lemma process_repo_missing_branch_witness :
  for_each [no_branch_repo; valid_repo]
    (process_repo (lit "1.17.0") (lit "/site") (lit "/tmp/w"))
    (sim_gen_ok, [])
  = (Raise (KeyError (lit "branch")),
     (sim_gen_ok,
      [Chdir (lit "/tmp/w"); Print (lit "Cloning repo reference-docs")])).
Proof.
  exact (@process_repo_missing_branch sim sim_os
           (lit "1.17.0") (lit "/site") (lit "/tmp/w") no_branch_repo
           [valid_repo] (lit "reference-docs")
           (lit "https://github.com/kubernetes-sigs/reference-docs.git")
           (Re.MatchObj
              (lit "https://github.com/kubernetes-sigs/reference-docs.git")
              [("prefix"%string,
                lit "github.com/kubernetes-sigs/reference-docs")])
           (sim_gen_ok, []) eq_refl eq_refl eq_refl eq_refl).
Defined.



(** ** The run as a whole *)

Ltac run_prologue Hargs :=
  unfold main, prologue; cbn [length Nat.ltb Nat.leb];
  rewrite step_ask; cbn [fst]; rewrite Hargs;
  rewrite !step_print;
  destruct (length _ =? 4);
  [ rewrite !step_print | rewrite step_ret ];
  rewrite step_ask, step_print, step_ask, step_print, step_ask; cbn [fst].

Lemma process_directive_emits {W : Type} {os : OS W}
  (P : event -> Prop) (repo_path work_dir root_dir : str) (gen : bool)
  (f : file_directive) :
  (forall e, match e with Chdir _ | Shell _ => False | _ => True end -> P e) ->
  emits (W:=W) P (process_directive repo_path work_dir root_dir gen f).
Proof.
  intros HP. unfold process_directive.
  destruct (f_src f) as [src|]; [|apply emits_bind; [apply emits_raise|]].
  - apply emits_bind; [apply emits_ret|intros s].
    destruct (f_dst f) as [dst|].
    + apply emits_bind; [apply emits_ret|intros d].
      apply (emits_weaken (file_event (PosixPath.join root_dir [d]))).
      * intros [] H; apply HP; cbn in *; trivial.
      * apply process_file_emits.
    + apply emits_bind; [apply emits_raise|intros d].
      apply (emits_weaken (file_event (PosixPath.join root_dir [d]))).
      * intros [] H; apply HP; cbn in *; trivial.
      * apply process_file_emits.
  - intros s. apply emits_bind; [destruct (f_dst f); emits_step|intros d].
    apply (emits_weaken (file_event (PosixPath.join root_dir [d]))).
    + intros [] H; apply HP; cbn in *; trivial.
    + apply process_file_emits.
Qed.

Lemma process_repo_exports {W : Type} {os : OS W}
  (k8s_release root_dir work_dir : str) (r : repo) :
  emits (W:=W) (exports_release k8s_release)
    (process_repo k8s_release root_dir work_dir r).
Proof.
  unfold process_repo.
  repeat first
    [ apply emits_for_each; intros;
      apply process_directive_emits; intros [] H; cbn in *; trivial;
      contradiction
    | apply emits_print; exact I
    | apply emits_do_chdir; exact I
    | apply emits_call; cbn [exports_release];
      first
        [ left; apply PyFacts.startswith_app
        | right;
          match goal with
          | |- Py.startswith (?a ++ ?b ++ ?c ++ ?rest) _ = true =>
              replace (a ++ b ++ c ++ rest) with ((a ++ b ++ c) ++ rest)
                by (now rewrite <- !app_assoc)
          end;
          apply PyFacts.startswith_app ]
    | emits_step ].
Qed.

(** C6: the release [main] goes on with is the one of the command line with
    .0 appended when it has exactly four characters, and that very string
    otherwise.  The line about the update is printed in the first case only;
    it is the string so formed that every repository of the loop is
    processed with, and every generate command a repository runs starts
    with the export of that string as K8S_RELEASE.  Nothing else is done to
    the release. *)
Theorem main_normalizes_release {W : Type} {os : OS W}
  (w w2 : W) (trace : list event) (config_file release temp_dir : str)
  (repos : list repo) :
  parse_args w = Some (config_file, release) ->
  yaml_full_load config_file w = inr (Config (Some repos)) ->
  let curr_dir := PosixPath.dirname (script_abspath w) in
  let root_dir := realpath (PosixPath.join curr_dir [lit ".."]) w in
  let w1 := chdir root_dir w in
  mkdtemp (if Py.str_eqb (platform_system w1) (lit "Darwin")
           then lit "/tmp" else gettempdir w1) w1 = inr (temp_dir, w2) ->
  let k8s_release :=
    if length release =? 4 then release ++ lit ".0" else release in
  main [] (w, trace)
  = (for_each repos (process_repo k8s_release root_dir temp_dir) ;;
     print (completed_msg temp_dir) ;;
     ret None)
      (w2,
       trace
       ++ [Print (lit "config_file is " ++ config_file);
           Print (lit "k8s_release is " ++ release)]
       ++ (if length release =? 4
           then [Print (lit "k8s_release updated to " ++ release ++ lit ".0")]
           else [])
       ++ [Print (lit "curr_dir " ++ curr_dir);
           Print (lit "root_dir " ++ root_dir);
           Chdir root_dir;
           Print (lit "Making temp work_dir");
           Print (lit "Working dir " ++ temp_dir)])
  /\ (length release = 4 ->
      k8s_release = release ++ lit ".0" /\ length k8s_release = 6)
  /\ (length release <> 4 -> k8s_release = release)
  /\ (forall r,
         emits (W:=W) (exports_release k8s_release)
           (process_repo k8s_release root_dir temp_dir r)).
Proof.
  intros Hargs Hload curr_dir root_dir w1 Htmp k8s_release.
  split; [|split; [|split]].
  - unfold main. cbn [length Nat.ltb Nat.leb].
    rewrite step_ask. cbn [fst]. rewrite Hargs. rewrite !step_print.
    unfold normalize_release. subst k8s_release.
    destruct (length release =? 4).
    + rewrite !step_print, step_ask, step_print, step_ask, step_print.
      rewrite step_ask. cbn [fst]. rewrite Hload.
      rewrite step_chdir, step_print, !step_ask. cbn [fst].
      fold curr_dir root_dir w1. rewrite Htmp.
      unfold bind at 1. cbn [set_world fst snd].
      rewrite step_print. cbn [c_repos]. rewrite step_ret. cbn [fst snd].
      repeat rewrite <- app_assoc. reflexivity.
    + rewrite step_ret, step_ask, step_print, step_ask, step_print.
      rewrite step_ask. cbn [fst]. rewrite Hload.
      rewrite step_chdir, step_print, !step_ask. cbn [fst].
      fold curr_dir root_dir w1. rewrite Htmp.
      unfold bind at 1. cbn [set_world fst snd].
      rewrite step_print. cbn [c_repos]. rewrite step_ret. cbn [fst snd].
      repeat rewrite <- app_assoc. reflexivity.
  - intros E. subst k8s_release. rewrite E. cbn [Nat.eqb].
    split; [reflexivity|]. rewrite length_app, E. reflexivity.
  - intros E. subst k8s_release. apply Nat.eqb_neq in E. now rewrite E.
  - intros r. apply process_repo_exports.
Qed.

Lemma main_normalizes_release_witness :
  snd (snd (main [] (sim_gen_fails, [])))
  = [Print (lit "config_file is reference.yml");
     Print (lit "k8s_release is 1.17");
     Print (lit "k8s_release updated to 1.17.0");
     Print (lit "curr_dir /site/update-imported-docs");
     Print (lit "root_dir /site");
     Chdir (lit "/site");
     Print (lit "Making temp work_dir");
     Print (lit "Working dir /tmp/tmpk8sdocs");
     Chdir (lit "/tmp/tmpk8sdocs");
     Print (lit "Cloning repo reference-docs");
     Shell (lit "git clone --depth=1 -b master https://github.com/kubernetes-sigs/reference-docs.git src/github.com/kubernetes-sigs/reference-docs");
     Chdir (lit "src/github.com/kubernetes-sigs/reference-docs");
     Print (lit "Generating docs for reference-docs with "
            ++ exports (lit "1.17.0") (lit "/tmp/tmpk8sdocs") (lit "/site")
            ++ lit "cd gen-compdocs && make cli");
     Shell (exports (lit "1.17.0") (lit "/tmp/tmpk8sdocs") (lit "/site")
            ++ lit "cd gen-compdocs && make cli");
     Print (lit "[Error] failed in generating docs for reference-docs");
     Print (completed_msg (lit "/tmp/tmpk8sdocs"))].
Proof.
  rewrite (proj1 (@main_normalizes_release sim sim_os
             sim_gen_fails sim_gen_fails [] (lit "reference.yml")
             (lit "1.17") (lit "/tmp/tmpk8sdocs") [gen_repo]
             eq_refl eq_refl eq_refl)).
  reflexivity.
Defined.

(** X10: a configuration file that cannot be loaded ends the run with -2
    (the status 254) after the error is printed; the directory is not
    changed, no work directory is made and no repository is looked at. *)
Theorem main_config_unreadable {W : Type} {os : OS W}
  (w : W) (trace : list event) (config_file release ex : str) :
  parse_args w = Some (config_file, release) ->
  yaml_full_load config_file w = inl ex ->
  let curr_dir := PosixPath.dirname (script_abspath w) in
  let root_dir := realpath (PosixPath.join curr_dir [lit ".."]) w in
  main [] (w, trace)
  = (Ok (Some (-2)%Z),
     (w, trace ++ prologue config_file release curr_dir root_dir
               ++ [Print (lit "[Error] failed in loading config file - "
                          ++ ex)]))
  /\ exit_status (fst (main [] (w, trace))) = 254%Z.
Proof.
  intros Hargs Hload curr_dir root_dir.
  assert (E : main [] (w, trace)
    = (Ok (Some (-2)%Z),
       (w, trace ++ prologue config_file release curr_dir root_dir
                 ++ [Print (lit "[Error] failed in loading config file - "
                            ++ ex)]))).
  { run_prologue Hargs; rewrite Hload, step_print; unfold ret;
      fold curr_dir root_dir; cbn [app fst snd];
      repeat rewrite <- app_assoc; reflexivity. }
  split; [exact E|]. now rewrite E.
Qed.

Lemma main_config_unreadable_witness :
  main [] (sim_no_config, [])
  = (Ok (Some (-2)%Z),
     (sim_no_config,
      [Print (lit "config_file is missing.yml");
       Print (lit "k8s_release is 1.17.0");
       Print (lit "curr_dir /site/update-imported-docs");
       Print (lit "root_dir /site");
       Print (lit "[Error] failed in loading config file - [Errno 2] No such file or directory: 'missing.yml'")])).
Proof.
  exact (proj1 (@main_config_unreadable sim sim_os sim_no_config []
                  (lit "missing.yml") (lit "1.17.0")
                  (lit "[Errno 2] No such file or directory: 'missing.yml'")
                  eq_refl eq_refl)).
Defined.

(** X11: when the work directory cannot be made, the handler formats the
    name work_dir, which was never bound: the run ends with
    UnboundLocalError (the status 1) instead of the -2 of the handler,
    after the change into the web root and before any repository. *)
Theorem main_no_work_dir {W : Type} {os : OS W}
  (w : W) (trace : list event) (config_file release ex : str)
  (config_data : config) :
  parse_args w = Some (config_file, release) ->
  yaml_full_load config_file w = inr config_data ->
  let curr_dir := PosixPath.dirname (script_abspath w) in
  let root_dir := realpath (PosixPath.join curr_dir [lit ".."]) w in
  let w1 := chdir root_dir w in
  mkdtemp (if Py.str_eqb (platform_system w1) (lit "Darwin")
           then lit "/tmp" else gettempdir w1) w1 = inl ex ->
  main [] (w, trace)
  = (Raise (UnboundLocalError (lit "work_dir")),
     (w1, trace ++ prologue config_file release curr_dir root_dir
                ++ [Chdir root_dir; Print (lit "Making temp work_dir")]))
  /\ exit_status (fst (main [] (w, trace))) = 1%Z.
Proof.
  intros Hargs Hload curr_dir root_dir w1 Htmp.
  assert (E : main [] (w, trace)
    = (Raise (UnboundLocalError (lit "work_dir")),
       (w1, trace ++ prologue config_file release curr_dir root_dir
                  ++ [Chdir root_dir; Print (lit "Making temp work_dir")]))).
  { run_prologue Hargs; rewrite Hload;
      rewrite step_chdir, step_print, !step_ask; cbn [fst];
      fold curr_dir root_dir w1; rewrite Htmp;
      unfold raise; cbn [app fst snd];
      repeat rewrite <- app_assoc; reflexivity. }
  split; [exact E|]. now rewrite E.
Qed.

Lemma main_no_work_dir_witness :
  fst (main [] (sim_no_tmp, [])) = Raise (UnboundLocalError (lit "work_dir"))
  /\ exit_status (fst (main [] (sim_no_tmp, []))) = 1%Z.
Proof.
  destruct (@main_no_work_dir sim sim_os sim_no_tmp []
              (lit "reference.yml") (lit "1.17")
              (lit "No space left on device")
              (Config (Some [gen_repo])) eq_refl eq_refl eq_refl) as [E1 E2].
  split; [now rewrite E1|exact E2].
Defined.

(** ** The checks and [main] together *)

(** X13: when the listing of the installed packages succeeds, [main] gets
    the messages of the checks that failed, in the order pip, PyYAML, go;
    and when there is such a message the run prints each of them followed by
    an empty line and returns -2 with the machine untouched. *)
Theorem script_reports_checks {W : Type} {os : OS W}
  (w : W) (trace : list event) (reqs : str) :
  pip_freeze w = Some reqs ->
  let msgs :=
    (if which (lit "pip") w || which (lit "pip3") w then [] else [msg_pip])
    ++ (if Py.contains
             (map (fun r => hd [] (Py.split r (lit "=="))) (split_ws reqs))
             (lit "PyYAML")
        then [] else [msg_yaml])
    ++ (if which (lit "go") w then [] else [msg_go]) in
  script (w, trace) = main msgs (w, trace)
  /\ (msgs <> [] ->
      script (w, trace)
      = (Ok (Some (-2)%Z),
         (w, trace ++ map (fun m => Print (m ++ [nl])) msgs))).
Proof.
  intros H msgs.
  assert (E : script (w, trace) = main msgs (w, trace)).
  { unfold script. unfold bind at 1.
    now rewrite (preflight_checks w trace reqs H). }
  split; [exact E|]. intros Hn. rewrite E.
  destruct msgs as [|m ms]; [congruence|]. apply main_with_errors.
Qed.

Lemma script_reports_checks_witness :
  script (sim_no_yaml_no_go, [])
  = (Ok (Some (-2)%Z),
     (sim_no_yaml_no_go,
      [Print (msg_yaml ++ [nl]); Print (msg_go ++ [nl])])).
Proof.
  apply (proj2 (@script_reports_checks sim sim_os sim_no_yaml_no_go []
                  (lit "requests==2.0 six==1.1") eq_refl)).
  discriminate.
Defined.

(** ** The remotes that match *)

Module RemoteShape.

Import Re ReFacts LinkFacts.

Lemma remote_later (l : str) (pos : nat) :
  pos <> 0 -> search_from remote_regex l pos = None.
Proof.
  revert pos. induction l as [|c t IH]; intros pos H.
  - cbn [search_from]. unfold try_match, remote_regex. cbn [run].
    destruct pos; [congruence|reflexivity].
  - cbn [search_from].
    assert (E : try_match remote_regex (c :: t) pos false = None).
    { unfold try_match, remote_regex. cbn [run].
      destruct pos; [congruence|reflexivity]. }
    rewrite E. now apply IH.
Qed.

Lemma remote_try_newline (prefix : str) :
  no_newline prefix ->
  try_match remote_regex (lit "https://" ++ prefix ++ lit ".git" ++ [nl]) 0
    false
  = Some (12 + length prefix, [("prefix"%string, prefix)]).
Proof.
  intros H. unfold try_match, remote_regex. cbn [lit list_ascii_of_string app].
  cbn [run atom_ok Nat.eqb]. rewrite !Ascii.eqb_refl.
  change (prefix ++ [ "."; "g"; "i"; "t"; nl ]%char)
    with (prefix ++ [ "."; "g"; "i"; "t" ]%char ++ [nl]).
  apply star_greedy_line with (x := "."%char); trivial.
  - intros [|c t] p cs' Hc; [reflexivity|].
    destruct (Ascii.eqb_spec "."%char c); [subst; congruence|reflexivity].
  - reflexivity.
  - reflexivity.
  - discriminate.
  - cbn [app]. cbn. rewrite firstn_prefix by lia.
    reflexivity.
Qed.

Lemma remote_try_inv (l : str) (n : nat) (cs : caps) :
  try_match remote_regex l 0 false = Some (n, cs) ->
  exists prefix,
    no_newline prefix
    /\ n = 12 + length prefix
    /\ cs = [("prefix"%string, prefix)]
    /\ (l = lit "https://" ++ prefix ++ lit ".git"
        \/ l = lit "https://" ++ prefix ++ lit ".git" ++ [nl]).
Proof.
  unfold try_match, remote_regex. cbn [run atom_ok Nat.eqb].
  repeat (destruct l as [|? l]; [discriminate|];
          match goal with
          | |- context [ Ascii.eqb ?a ?b ] =>
              destruct (Ascii.eqb_spec a b) as [<-|]; [|discriminate]
          end).
  intros H.
  apply star_greedy_inv in H as (prefix & zs & -> & Hp & H).
  repeat (destruct zs as [|? zs]; [discriminate|];
          match type of H with
          | context [ Ascii.eqb ?a ?b ] =>
              destruct (Ascii.eqb_spec a b) as [<-|]; [|discriminate]
          end).
  exists prefix. split; [exact Hp|].
  destruct zs as [|c [|c' zs]]; [| |discriminate].
  - injection H as <- <-. rewrite firstn_prefix by lia.
    cbn [lit list_ascii_of_string app].
    split; [lia|split; [reflexivity|now left]].
  - destruct (Ascii.eqb_spec c nl) as [->|]; [|discriminate].
    injection H as <- <-. rewrite firstn_prefix by lia.
    cbn [lit list_ascii_of_string app].
    split; [lia|split; [reflexivity|now right]].
Qed.

End RemoteShape.

(** X14: the remotes the pattern of [main] accepts are exactly https://, a
    prefix without newline and .git, with or without one final newline; the
    group prefix is what stands between the scheme and the last .git, and
    the match never holds the final newline.  Every other remote (another
    scheme, no .git at the end, a newline inside) is reported as invalid. *)
Theorem remote_regex_matches (remote : str) (m : Re.match_obj) :
  Re.search remote_regex remote = Some m <->
  exists prefix,
    no_newline prefix
    /\ m = Re.MatchObj (lit "https://" ++ prefix ++ lit ".git")
             [("prefix"%string, prefix)]
    /\ (remote = lit "https://" ++ prefix ++ lit ".git"
        \/ remote = lit "https://" ++ prefix ++ lit ".git" ++ [nl]).
Proof.
  assert (Hlen : forall prefix : str,
    length (lit "https://" ++ prefix ++ lit ".git") = 12 + length prefix).
  { intros prefix. rewrite !length_app. cbn. lia. }
  split.
  - unfold Re.search. intros H.
    destruct (Re.try_match remote_regex remote 0 false) as [[n cs]|] eqn:E.
    + assert (Hm : m = Re.mk_match remote (n, cs)).
      { destruct remote; cbn [Re.search_from] in H; rewrite E in H;
          congruence. }
      apply RemoteShape.remote_try_inv in E
        as (prefix & Hp & -> & -> & Hr).
      exists prefix. split; [exact Hp|]. split; [|exact Hr].
      subst m. unfold Re.mk_match. cbn [fst snd]. f_equal.
      destruct Hr as [-> | ->].
      * apply firstn_all2. rewrite Hlen. lia.
      * rewrite app_assoc, app_assoc, <- (app_assoc (lit "https://")).
        apply LinkFacts.firstn_prefix. now rewrite Hlen.
    + destruct remote as [|c t]; cbn [Re.search_from] in H; rewrite E in H;
        [discriminate|].
      rewrite RemoteShape.remote_later in H by lia. discriminate.
  - intros (prefix & Hp & -> & [-> | ->]).
    + now apply RemoteFacts.remote_search.
    + unfold Re.search.
      pose proof (RemoteShape.remote_try_newline prefix Hp) as E.
      assert (Hs : Re.search_from remote_regex
                     (lit "https://" ++ prefix ++ lit ".git" ++ [nl]) 0
                   = Some (Re.mk_match
                             (lit "https://" ++ prefix ++ lit ".git" ++ [nl])
                             (12 + length prefix,
                              [("prefix"%string, prefix)]))).
      { destruct (lit "https://" ++ prefix ++ lit ".git" ++ [nl]);
          cbn [Re.search_from]; now rewrite E. }
      rewrite Hs. unfold Re.mk_match. cbn [fst snd]. do 2 f_equal.
      rewrite app_assoc, app_assoc, <- (app_assoc (lit "https://")).
      apply LinkFacts.firstn_prefix. now rewrite Hlen.
Qed.

Example remote_regex_examples :
  Re.search remote_regex (lit "git@github.com:kubernetes/website.git") = None
  /\ Re.search remote_regex (lit "http://github.com/kubernetes/website.git")
     = None
  /\ Re.search remote_regex (lit "https://github.com/kubernetes/website")
     = None
  /\ option_map (fun m => Re.group m "prefix")
       (Re.search remote_regex (lit "https://github.com/a.git/b.git"))
     = Some (lit "github.com/a.git/b").
Proof. repeat split. Qed.

(** ** Texts the rewriters do not touch *)

Lemma scan_without_bracket (r : Re.regex) (content : str) :
  (forall c t p, c <> "["%char -> Re.try_match r (c :: t) p false = None) ->
  Re.try_match r [] (0 + length content) false = None ->
  lacks "[" content ->
  Re.scan r content 0 0 = map Re.Ch content.
Proof.
  intros Hnone Hnil Hc.
  rewrite <- (app_nil_r content) at 1.
  rewrite ScanFacts.scan_chars
    by (intros c t p Hin; apply Hnone; now apply (LinkFacts.lacks_in _ _ _ Hc)).
  rewrite ScanFacts.scan_nomatch_nil by exact Hnil.
  apply app_nil_r.
Qed.

(** X15: a text without an opening bracket holds no link for either
    rewriter: [process_links] does nothing to it but the removal of the
    leading line, and [process_kubectl_links] returns it as it is. *)
Theorem rewriters_need_a_bracket (content : str) :
  lacks "[" content ->
  (forall remote_prefix sub_path,
      process_links content remote_prefix sub_path
      = Re.sub h1_regex (fun _ => []) content)
  /\ process_kubectl_links content = Ok content.
Proof.
  intros H. split.
  - intros remote_prefix sub_path. unfold process_links. f_equal.
    unfold Re.sub. rewrite scan_without_bracket; trivial.
    + apply ScanFacts.render_chars.
    + apply LinkFacts.link_try_other.
  - unfold process_kubectl_links, re_sub_raising.
    rewrite scan_without_bracket; trivial.
    + rewrite <- (app_nil_r (map Re.Ch content)).
      rewrite KubectlFacts.sub_pieces_chars. cbn. now rewrite app_nil_r.
    + apply LinkFacts.kubectl_try_other.
Qed.

Lemma rewriters_need_a_bracket_witness :
  process_links (lit "# Title" ++ nl :: lit "Plain (text) only.")
    (lit "rp") (lit "sp")
  = lit "Plain (text) only."
  /\ process_kubectl_links (lit "kubectl_annotate.md](x)")
     = Ok (lit "kubectl_annotate.md](x)").
Proof.
  split.
  - exact (proj1 (rewriters_need_a_bracket
                    (lit "# Title" ++ nl :: lit "Plain (text) only.") eq_refl)
             (lit "rp") (lit "sp")).
  - exact (proj2 (rewriters_need_a_bracket
                    (lit "kubectl_annotate.md](x)") eq_refl)).
Defined.

(** X16: a text without any newline is never shortened: the heading
    pattern needs the newline that ends the first line, so a page that is
    one heading line without a final newline keeps it. *)
Theorem process_links_keeps_single_line
  (content remote_prefix sub_path : str) :
  no_newline (Re.sub link_regex (analyze remote_prefix sub_path) content) ->
  process_links content remote_prefix sub_path
  = Re.sub link_regex (analyze remote_prefix sub_path) content.
Proof.
  intros H. unfold process_links. now apply strip_single_line.
Qed.

Lemma process_links_keeps_single_line_witness :
  process_links (lit "# Reference") (lit "rp") (lit "sp") = lit "# Reference".
Proof.
  exact (process_links_keeps_single_line (lit "# Reference") (lit "rp")
           (lit "sp") eq_refl).
Defined.

(** ** Pages copied without rewriting *)

(** X17: without gen-absolute-links, every path of the glob that is read
    and whose destination does not end in kubectl.md is written as it was
    read: the body of the loop, on whatever machine and after whatever
    came before, prints the message, opens the destination and writes the
    very text of the source, heading and links included. *)
Theorem process_match_copies_verbatim {W : Type} {os : OS W}
  (src dst_path repo_path content : str)
  (w w1 w2 : W) (trace : list event) :
  isfile src w = true -> read_text src w = inr content ->
  let out := resolve_dst dst_path src in
  Py.endswith out (lit "kubectl.md") = false ->
  open_w out w = inr w1 -> write_text out content w1 = inr w2 ->
  process_match src dst_path repo_path false (w, trace)
  = (Ok tt,
     (w2, trace ++ [Print (lit "Writing doc: " ++ out); OpenW out;
                    WriteText out content])).
Proof.
  intros Hfile Hread out Hk Hopen Hwrite.
  unfold process_match.
  rewrite step_ask. cbn [fst]. rewrite Hfile. cbn [negb].
  rewrite step_ask. cbn [fst]. rewrite Hread.
  fold out. cbv zeta. rewrite step_print, step_ask. cbn [fst].
  rewrite Hopen. unfold bind at 1. cbn [set_world fst snd].
  unfold bind at 1. cbn [emit fst snd]. rewrite Hk.
  rewrite step_ask. cbn [fst]. rewrite Hwrite.
  unfold bind at 1. cbn [set_world fst snd]. unfold emit. cbn [fst snd].
  rewrite <- !app_assoc. reflexivity.
Qed.

Lemma process_match_copies_verbatim_witness :
  snd (snd (process_file (lit "docs/*.md") (lit "content/en/docs/")
              (lit "src/k8s.io/x") (lit "/tmp/w") (lit "/site") false
              (sim_two_pages, [])))
  = [Print (lit "Writing doc: /site/content/en/docs/a.md");
     OpenW (lit "/site/content/en/docs/a.md");
     WriteText (lit "/site/content/en/docs/a.md")
       (lit "# A" ++ nl :: lit "See [b](b.md)");
     Print (lit "Writing doc: /site/content/en/docs/b.md");
     OpenW (lit "/site/content/en/docs/b.md");
     WriteText (lit "/site/content/en/docs/b.md") (lit "B")].
Proof.
  unfold process_file. rewrite step_ask.
  change (glob (PosixPath.join (lit "/tmp/w")
                  [lit "src/k8s.io/x"; lit "docs/*.md"])
            (fst (sim_two_pages, @nil event)))
    with [lit "/tmp/w/src/k8s.io/x/docs/a.md";
          lit "/tmp/w/src/k8s.io/x/docs/b.md"].
  cbn [for_each]. unfold bind at 1.
  rewrite (@process_match_copies_verbatim sim sim_os
    (lit "/tmp/w/src/k8s.io/x/docs/a.md")
    (PosixPath.join (lit "/site") [lit "content/en/docs/"])
    (lit "src/k8s.io/x") (lit "# A" ++ nl :: lit "See [b](b.md)")
    sim_two_pages
    (sim_store (lit "/site/content/en/docs/a.md") [] sim_two_pages)
    (sim_store (lit "/site/content/en/docs/a.md")
       (lit "# A" ++ nl :: lit "See [b](b.md)")
       (sim_store (lit "/site/content/en/docs/a.md") [] sim_two_pages))
    [] eq_refl eq_refl eq_refl eq_refl eq_refl).
  unfold bind at 1.
  rewrite (@process_match_copies_verbatim sim sim_os
    (lit "/tmp/w/src/k8s.io/x/docs/b.md")
    (PosixPath.join (lit "/site") [lit "content/en/docs/"])
    (lit "src/k8s.io/x") (lit "B")
    (sim_store (lit "/site/content/en/docs/a.md")
       (lit "# A" ++ nl :: lit "See [b](b.md)")
       (sim_store (lit "/site/content/en/docs/a.md") [] sim_two_pages))
    (sim_store (lit "/site/content/en/docs/b.md") []
       (sim_store (lit "/site/content/en/docs/a.md")
          (lit "# A" ++ nl :: lit "See [b](b.md)")
          (sim_store (lit "/site/content/en/docs/a.md") [] sim_two_pages)))
    (sim_store (lit "/site/content/en/docs/b.md") (lit "B")
       (sim_store (lit "/site/content/en/docs/b.md") []
          (sim_store (lit "/site/content/en/docs/a.md")
             (lit "# A" ++ nl :: lit "See [b](b.md)")
             (sim_store (lit "/site/content/en/docs/a.md") []
                sim_two_pages))))
    _ eq_refl eq_refl eq_refl eq_refl eq_refl).
  reflexivity.
Defined.

(** ** The two rewriters in a row *)

Module Composition.

Lemma src_join_cases (prefix : str) :
  PosixPath.join (lit "src") [prefix] = lit "src/" ++ prefix
  \/ (PosixPath.join (lit "src") [prefix] = prefix
      /\ Py.startswith prefix (lit "/") = true).
Proof.
  destruct prefix as [|c p]; [now left|].
  unfold PosixPath.join, PosixPath.join2. cbn [fold_left].
  change (lit "/") with [slash].
  destruct (Py.startswith (c :: p) [slash]); [now right|now left].
Qed.

Lemma src_join_not_kubectl (prefix rest : str) :
  Py.startswith (PosixPath.join (lit "src") [prefix] ++ rest) (lit "kubectl")
  = false.
Proof.
  destruct (src_join_cases prefix) as [-> | [-> H]]; [reflexivity|].
  destruct prefix as [|c p]; [discriminate|].
  cbn in H. apply andb_true_iff in H as [H _].
  apply Ascii.eqb_eq in H. now subst c.
Qed.

Lemma src_join_lacks (x : ascii) (prefix : str) :
  lacks x (lit "src/") -> lacks x prefix ->
  lacks x (PosixPath.join (lit "src") [prefix]).
Proof.
  intros Hs Hp. destruct (src_join_cases prefix) as [-> | [-> _]]; trivial.
  now apply LinkFacts.lacks_app.
Qed.

Lemma absolute_url_not_kubectl (prefix sub_path url : str) :
  already_absolute url = false ->
  kubectl_page
    (absolute_url (PosixPath.join (lit "src") [prefix] ++ lit "/tree/master")
       sub_path url) = false.
Proof.
  intros Ha. unfold already_absolute in Ha.
  apply orb_false_iff in Ha as [Ha H3].
  apply orb_false_iff in Ha as [H1 H2].
  unfold absolute_url. rewrite H1, H2, H3. unfold kubectl_page.
  destruct (Py.startswith url (lit "/"));
    rewrite <- app_assoc, src_join_not_kubectl; apply andb_false_r.
Qed.

End Composition.

(** X18: with gen-absolute-links the remote prefix is the clone path of
    [main] followed by /tree/master, which never begins with kubectl; so on
    a page of one line that holds one link with a URL [process_links]
    rewrites, the link is put under the remote prefix and
    [process_kubectl_links], run next as [process_file] does for kubectl.md,
    leaves the page as it is: no link to a kubectl page is turned into an
    anchor of the kubectl commands. *)
Theorem absolute_links_hide_kubectl_pages
  (pre text url post prefix src_dir : str) :
  no_newline pre -> lacks "[" pre ->
  no_newline text ->
  no_newline url -> lacks "]" url -> lacks ")" url ->
  no_newline post -> lacks "[" post -> lacks "]" post -> lacks ")" post ->
  no_newline prefix -> lacks "]" prefix -> lacks ")" prefix ->
  no_newline src_dir -> lacks "]" src_dir -> lacks ")" src_dir ->
  already_absolute url = false ->
  let repo_path := PosixPath.join (lit "src") [prefix] in
  let remote_prefix := repo_path ++ lit "/tree/master" in
  let page :=
    process_links (pre ++ format_link text url ++ post) remote_prefix src_dir
  in
  page = pre ++ format_link text (absolute_url remote_prefix src_dir url)
             ++ post
  /\ kubectl_page (absolute_url remote_prefix src_dir url) = false
  /\ process_kubectl_links page = Ok page.
Proof.
  intros Hpre Hpre1 Ht Hu Hu1 Hu2 Hp Hp1 Hp2 Hp3 Hx Hx1 Hx2 Hd Hd1 Hd2 Ha
         repo_path remote_prefix page.
  set (new := absolute_url remote_prefix src_dir url).
  assert (Hrp : forall x, lacks x (lit "src/") -> lacks x (lit "/tree/master")
                          -> lacks x prefix -> lacks x remote_prefix).
  { intros x H1 H2 H3. apply LinkFacts.lacks_app; trivial.
    now apply Composition.src_join_lacks. }
  assert (Hn : no_newline new).
  { apply absolute_url_lacks; trivial; try reflexivity.
    now apply Hrp. }
  assert (Hn1 : lacks "]" new).
  { apply absolute_url_lacks; trivial; try reflexivity.
    now apply Hrp. }
  assert (Hn2 : lacks ")" new).
  { apply absolute_url_lacks; trivial; try reflexivity.
    now apply Hrp. }
  assert (Hk : kubectl_page new = false)
    by now apply Composition.absolute_url_not_kubectl.
  assert (Hsub : Re.sub link_regex (analyze remote_prefix src_dir)
                   (pre ++ format_link text url ++ post)
                 = pre ++ format_link text new ++ post).
  { rewrite <- (app_nil_r post) at 1. unfold Re.sub.
    rewrite LinkFacts.scan_line
      with (cs := [("target"%string, url); ("ankor"%string, text)]); trivial.
    - rewrite ScanFacts.render_app, ScanFacts.render_chars. f_equal.
      rewrite ScanFacts.render_match, analyze_absolute_url. f_equal.
      rewrite ScanFacts.render_app, ScanFacts.render_chars.
      change (Re.scan link_regex [] 0 0) with (@nil Re.piece).
      cbn [Re.render flat_map]. now rewrite !app_nil_r.
    - apply LinkFacts.link_try_other.
    - now apply LinkFacts.link_try_line. }
  assert (Hpage : page = pre ++ format_link text new ++ post).
  { unfold page, process_links. rewrite Hsub. apply strip_single_line.
    repeat apply LinkFacts.lacks_app; trivial; try reflexivity. }
  split; [exact Hpage|]. split; [exact Hk|].
  rewrite Hpage. rewrite <- (app_nil_r post) at 1.
  rewrite KubectlFacts.kubectl_line; trivial.
  - rewrite KubectlFacts.kubectl_analyze_other by exact Hk.
    cbn [rbind]. change (process_kubectl_links []) with (Ok (@nil ascii)).
    cbn [rbind]. now rewrite app_nil_r.
  - exact I.
Qed.

Lemma absolute_links_hide_kubectl_pages_witness :
  process_links (lit "See [kubectl annotate](kubectl_annotate.md).")
    (lit "src/github.com/kubernetes/kubectl/tree/master") (lit "docs")
  = lit "See [kubectl annotate](src/github.com/kubernetes/kubectl/tree/master/docs/kubectl_annotate.md)."
  /\ process_kubectl_links
       (lit "See [kubectl annotate](src/github.com/kubernetes/kubectl/tree/master/docs/kubectl_annotate.md).")
     = Ok (lit "See [kubectl annotate](src/github.com/kubernetes/kubectl/tree/master/docs/kubectl_annotate.md).").
Proof.
  pose proof (absolute_links_hide_kubectl_pages
    (lit "See ") (lit "kubectl annotate") (lit "kubectl_annotate.md")
    (lit ".") (lit "github.com/kubernetes/kubectl") (lit "docs")
    eq_refl eq_refl eq_refl eq_refl eq_refl eq_refl eq_refl eq_refl eq_refl
    eq_refl eq_refl eq_refl eq_refl eq_refl eq_refl eq_refl eq_refl)
    as [H1 [_ H2]].
  split.
  - exact H1.
  - exact H2.
Defined.
